(** * wstools, package cli: the mail composer and the SMTP session driver

    A shallow embedding of [common/cli/mail.go].  Go strings and byte
    slices are both sequences of 8-bit bytes and are modelled by [string];
    a Go [error] value is an [option error] ([None] is [nil]); the objects
    the code talks to (the sink, the files, the SMTP client) are modelled
    by explicit state passing and by scripted answers. *)

From Stdlib Require Import String Ascii List Bool Arith NArith ZArith Lia.
From Stdlib Require Import Permutation.
Import ListNotations.

Local Open Scope string_scope.

(** ** Bytes and errors *)

Definition CR : ascii := "013"%char.
Definition LF : ascii := "010"%char.
Definition NUL : ascii := "000"%char.

(** The Go literal ["\r\n"]. *)
Definition CRLF : string := String CR (String LF EmptyString).

(** [make([]byte, n)]: a slice of [n] zero bytes. *)
Fixpoint make (n : nat) : string :=
  match n with
  | O => EmptyString
  | S k => String NUL (make k)
  end.

(** [s[n:]] for [n <= len(s)]. *)
Fixpoint drop (n : nat) (s : string) : string :=
  match n, s with
  | O, _ => s
  | S k, String _ t => drop k t
  | S _, EmptyString => EmptyString
  end.

(** [s[:n]] for [n <= len(s)]. *)
Fixpoint take (n : nat) (s : string) : string :=
  match n, s with
  | O, _ => EmptyString
  | S k, String c t => String c (take k t)
  | S _, EmptyString => EmptyString
  end.

(** The error values the code can see.  [Errno] stands for an error that
    comes from outside the package (the file system, the network peer, the
    sink); the other constructors are the errors the package builds. *)
Inductive error : Type :=
| EOF                                   (* io.EOF *)
| Errno (code : nat)
| ErrPartFinished                       (* multipart: can't write to finished part *)
| ErrArgs                               (* MailRun: fmt.Errorf of the parameter check *)
| ErrCreateTemp (cause : error)         (* MailRun: creating the temporary file failed *)
| ErrCompose (cause : error)            (* MailRun: wrapping the mail content failed *)
| ErrNoAddress.                         (* MailSend: Must specify at least one From address and one To address *)

Definition is_EOF (e : error) : bool :=
  match e with
  | EOF => true
  | _ => false
  end.

(** ** strings.Split *)

Definition comma : ascii := ","%char.
Definition colon : ascii := ":"%char.

(** [Split_from sep cur s]: the fields of [s], the field being read
    having the prefix [cur] already. *)
Fixpoint Split_from (sep : ascii) (cur : string) (s : string) : list string :=
  match s with
  | EmptyString => [cur]
  | String c t =>
      if Ascii.eqb c sep
      then cur :: Split_from sep EmptyString t
      else Split_from sep (cur ++ String c EmptyString) t
  end.

(** [strings.Split(s, sep)] for a separator [sep] of one byte, which is
    what every call of the package passes. *)
Definition Split (s : string) (sep : ascii) : list string :=
  Split_from sep EmptyString s.

(** ** encoding/base64, StdEncoding *)

Module base64.

Definition encodeStd : string :=
  "ABCDEFGHIJKLMNOPQRSTUVWXYZabcdefghijklmnopqrstuvwxyz0123456789+/".

Definition padChar : ascii := "="%char.

(** [enc.encode[i]] *)
Definition encode (i : N) : ascii :=
  match String.get (N.to_nat i) encodeStd with
  | Some c => c
  | None => NUL
  end.

Definition EncodedLen (n : nat) : nat := (n + 2) / 3 * 4.

Definition sextet (val : N) (shift : N) : ascii :=
  encode (N.land (N.shiftr val shift) 63).

(** [Encode src]: the bytes that [StdEncoding.Encode(dst, src)] stores in
    [dst[0:EncodedLen(len(src))]]. *)
Fixpoint Encode (src : string) : string :=
  match src with
  | String a (String b (String c rest)) =>
      let val := N.lor (N.lor (N.shiftl (N_of_ascii a) 16)
                              (N.shiftl (N_of_ascii b) 8))
                       (N_of_ascii c) in
      String (sextet val 18) (String (sextet val 12)
        (String (sextet val 6) (String (sextet val 0) (Encode rest))))
  | String a (String b EmptyString) =>
      let val := N.lor (N.shiftl (N_of_ascii a) 16)
                       (N.shiftl (N_of_ascii b) 8) in
      String (sextet val 18) (String (sextet val 12)
        (String (sextet val 6) (String padChar EmptyString)))
  | String a EmptyString =>
      let val := N.shiftl (N_of_ascii a) 16 in
      String (sextet val 18) (String (sextet val 12)
        (String padChar (String padChar EmptyString)))
  | EmptyString => EmptyString
  end.

(** The slice [dst] after [StdEncoding.Encode(dst, src)]: its first
    [EncodedLen(len(src))] bytes are overwritten, the rest is kept. *)
Definition Encode_into (dst src : string) : string :=
  let e := Encode src in e ++ drop (String.length e) dst.

End base64.

(** ** io.Writer and io.Reader *)

(** [io.Writer]: a sink is a state and a [Write] that either takes the
    bytes or fails.  The byte count that Go returns next to the error is
    never looked at by this package. *)
Class io_Writer (S : Type) : Type :=
  Write : S -> string -> S * option error.

(** [bytes.Buffer]: a growable buffer, whose [Write] never fails. *)
Record Buffer : Type := mkBuffer { buf_bytes : string }.

#[global] Instance Buffer_Writer : io_Writer Buffer :=
  fun b p => (mkBuffer (buf_bytes b ++ p), None).

(** A sink with scripted failures, such as a file on a device that can
    fill up: the [k]-th call of [Write] (from 0) fails with [e] when
    [sk_verdict k = Some e], and takes the bytes otherwise.  The record
    keeps the chunks that were taken, oldest first. *)
Record Scripted : Type := mkScripted {
  sk_chunks : list string;
  sk_calls : nat;
  sk_verdict : nat -> option error
}.

#[global] Instance Scripted_Writer : io_Writer Scripted :=
  fun s p =>
    match sk_verdict s (sk_calls s) with
    | Some e => (mkScripted (sk_chunks s) (S (sk_calls s)) (sk_verdict s), Some e)
    | None => (mkScripted (sk_chunks s ++ [p])%list (S (sk_calls s)) (sk_verdict s), None)
    end.

Definition sk_new (verdict : nat -> option error) : Scripted :=
  mkScripted [] 0 verdict.

Definition sk_bytes (s : Scripted) : string :=
  String.concat EmptyString (sk_chunks s).

(** [io.Reader]: the results of the successive calls of [Read], each the
    bytes delivered and the error returned with them; once the script is
    used up the reader answers [0, io.EOF]. *)
Definition Reader : Type := list (string * option error).

(** [io.WriteString(w, s)], result dropped. *)
Definition WriteString_ {S} `{io_Writer S} (w : S) (s : string) : S :=
  fst (Write w s).

(** ** base64Wrap *)

Definition maxRaw : nat := 57.
Definition MaxLineLength : nat := 76.

(** [r.Read(b)] delivering the bytes [c]: they overwrite the front of [b],
    at most [len(b)] of them. *)
Definition read_into (b c : string) : string * nat :=
  let c' := take (String.length b) c in
  (c' ++ drop (String.length c') b, String.length c').

(** The [for] loop of [base64Wrap]; [b] and [buffer] are the two slices
    the function allocates once and reuses at every turn. *)
Fixpoint base64Wrap_loop {S} `{io_Writer S}
    (r : Reader) (b buffer : string) (w : S) : S * option error :=
  match r with
  | [] => (w, None)
  | (c, err) :: r' =>
      let '(b, n) := read_into b c in
      match err with
      | Some e => if is_EOF e then (w, None) else (w, Some e)
      | None =>
          if Nat.eqb n maxRaw then
            let buffer := base64.Encode_into buffer (take n b) in
            let w := fst (Write w buffer) in
            base64Wrap_loop r' b buffer w
          else
            (* out aliases buffer[0:76]; its capacity is that of buffer,
               so append stores the CRLF in place *)
            let out := take (base64.EncodedLen (String.length b)) buffer in
            let out := base64.Encode_into out b in
            let out := out ++ CRLF in
            let w := fst (Write w out) in
            base64Wrap_loop r' b out w
      end
  end.

Definition base64Wrap {S} `{io_Writer S} (w : S) (r : Reader) : S * option error :=
  let buffer := make MaxLineLength ++ CRLF in
  let b := make maxRaw in
  base64Wrap_loop r b buffer w.

(** An [*os.File] read through a buffer of [n > 0] bytes: every [Read]
    delivers [n] bytes until fewer are left, then the rest, then the
    final answer, [io.EOF] or the error [ferr] of the device. *)
Record File : Type := mkFile { f_bytes : string; f_err : option error }.

Fixpoint file_chunks (fuel n : nat) (data : string) : list string :=
  match fuel with
  | O => []
  | S fuel' =>
      match data with
      | EmptyString => []
      | _ => take n data :: file_chunks fuel' n (drop n data)
      end
  end.

Definition file_reader (n : nat) (f : File) : Reader :=
  (map (fun c => (c, None)) (file_chunks (String.length (f_bytes f)) n (f_bytes f))
   ++ [(EmptyString, Some match f_err f with Some e => e | None => EOF end)])%list.

(** ** net/textproto: MIMEHeader *)

Module textproto.

(** A [MIMEHeader] is a Go map from field names to value lists: the
    entries have distinct keys, and their order in the list means nothing.
    The order in which a [range] statement visits them is chosen by the
    runtime at every run (see [map_order] below). *)
Definition MIMEHeader : Type := list (string * list string).

Definition is_lower (c : ascii) : bool :=
  (N.leb 97 (N_of_ascii c) && N.leb (N_of_ascii c) 122)%bool.
Definition is_upper (c : ascii) : bool :=
  (N.leb 65 (N_of_ascii c) && N.leb (N_of_ascii c) 90)%bool.
Definition is_digit (c : ascii) : bool :=
  (N.leb 48 (N_of_ascii c) && N.leb (N_of_ascii c) 57)%bool.

Fixpoint mem_ascii (c : ascii) (s : string) : bool :=
  match s with
  | EmptyString => false
  | String d t => (Ascii.eqb c d || mem_ascii c t)%bool
  end.

(** The token bytes of RFC 7230. *)
Definition validHeaderFieldByte (c : ascii) : bool :=
  (is_lower c || is_upper c || is_digit c || mem_ascii c "!#$%&'*+-.^_`|~")%bool.

Fixpoint all_bytes (p : ascii -> bool) (s : string) : bool :=
  match s with
  | EmptyString => true
  | String c t => (p c && all_bytes p t)%bool
  end.

(** First letter and every letter after a dash in upper case, the other
    letters in lower case. *)
Fixpoint canon (upper : bool) (s : string) : string :=
  match s with
  | EmptyString => EmptyString
  | String c t =>
      let c' :=
        if (upper && is_lower c)%bool then ascii_of_N (N_of_ascii c - 32)
        else if (negb upper && is_upper c)%bool then ascii_of_N (N_of_ascii c + 32)
        else c in
      String c' (canon (Ascii.eqb c' "-"%char) t)
  end.

(** A key with a byte that is not a token byte is left as it is. *)
Definition CanonicalMIMEHeaderKey (s : string) : string :=
  if all_bytes validHeaderFieldByte s then canon true s else s.

(** [h[key]] *)
Fixpoint lookup (h : MIMEHeader) (key : string) : option (list string) :=
  match h with
  | [] => None
  | (k, v) :: t => if String.eqb k key then Some v else lookup t key
  end.

(** [h[key] = vals] *)
Fixpoint store (h : MIMEHeader) (key : string) (vals : list string) : MIMEHeader :=
  match h with
  | [] => [(key, vals)]
  | (k, v) :: t =>
      if String.eqb k key then (k, vals) :: t else (k, v) :: store t key vals
  end.

(** [h.Set(key, value)] *)
Definition Set_ (h : MIMEHeader) (key value : string) : MIMEHeader :=
  store h (CanonicalMIMEHeaderKey key) [value].

(** The entries by increasing key, as [sort.Strings] orders the keys. *)
Fixpoint insert_sorted (e : string * list string) (h : MIMEHeader) : MIMEHeader :=
  match h with
  | [] => [e]
  | e' :: t =>
      if String.leb (fst e) (fst e') then e :: e' :: t
      else e' :: insert_sorted e t
  end.

Definition sorted (h : MIMEHeader) : MIMEHeader :=
  fold_right insert_sorted [] h.

End textproto.

Import textproto.

(** ** The message description *)

(** [MailConfig], the struct of the source.  [Type_] is the field [Type]. *)
Record MailConfig : Type := mkMailConfig {
  User : string;
  Passwd : string;
  Host : string;
  From : string;
  To : string;
  Type_ : string;
  Subject : string;
  Content : string;
  ContentPath : string;
  Attachments : string
}.

Definition nonempty (s : string) : bool :=
  match s with
  | EmptyString => false
  | String _ _ => true
  end.

(** ** What a run depends on *)

(** The parts of the Go library whose results no property below depends
    on are left open:
    - [encodeWord s] is the RFC 2047 encoded-word that
      [mime.QEncoding.Encode("UTF-8", s)] returns when [s] needs encoding;
    - [qp_Write p] are the lines that a fresh [quotedprintable.Writer]
      flushes to its underlying writer while [p] is written to it, and
      [qp_Close p] the ones that [Close] flushes after that (the writer
      buffers one line, so both depend on the bytes only and not on the
      cuts between successive [Write] calls);
    - [filepath.Ext], [filepath.Base] and [mime.TypeByExtension], the last
      of which reads the tables of the host. *)
Record GoLib : Type := mkGoLib {
  encodeWord : string -> string;
  qp_Write : string -> list string;
  qp_Close : string -> list string;
  filepath_Ext : string -> string;
  filepath_Base : string -> string;
  mime_TypeByExtension : string -> string
}.

(** The answers of the outside world during one run: the file system, the
    two boundaries that [multipart.NewWriter] draws at random (in the
    order of the calls), and the order in which [range] visits a map. *)
Record World : Type := mkWorld {
  os_Lstat : string -> error + Z;
  os_Open : string -> error + File;
  boundary_outer : string;
  boundary_inner : string;
  map_order : MIMEHeader -> MIMEHeader
}.

(** ** MailConfig.Len *)

(** [int64] arithmetic wraps around. *)
Definition wrap64 (z : Z) : Z :=
  ((z + 2 ^ 63) mod 2 ^ 64 - 2 ^ 63)%Z.

(** The loop over the attachment paths. *)
Fixpoint Len_attachments (world : World) (paths : list string) (l : Z)
  : Z * option error :=
  match paths with
  | [] => (l, None)
  | path :: rest =>
      match os_Lstat world path with
      | inl err => (0%Z, Some err)
      | inr size => Len_attachments world rest (wrap64 (l + size))
      end
  end.

Definition Len_tail (world : World) (e : MailConfig) (l : Z) : Z * option error :=
  if nonempty (Attachments e)
  then Len_attachments world (Split (Attachments e) comma) l
  else (l, None).

Definition Len (world : World) (e : MailConfig) : Z * option error :=
  let l := 0%Z in
  if nonempty (Content e) then
    Len_tail world e (wrap64 (l + Z.of_nat (String.length (Content e))))
  else if nonempty (ContentPath e) then
    match os_Lstat world (ContentPath e) with
    | inl err => (0%Z, Some err)
    | inr size => Len_tail world e (wrap64 (l + size))
    end
  else (0%Z, None).

(** ** mime/multipart: Writer *)

Module multipart.

(** A part, as [CreatePart] hands it out: [we] is the last write error
    seen through it, [closed] is set when the next part is begun or the
    writer is closed. *)
Record part : Type := mkPart { we : option error; closed : bool }.

(** The writer holds its boundary and a pointer to the part handed out
    last, which the caller of [CreatePart] holds too. *)
Record Writer : Type := mkWriter { Boundary : string; lastpart : option part }.

Definition NewWriter (boundary : string) : Writer := mkWriter boundary None.

Definition set_lastpart (w : Writer) (p : option part) : Writer :=
  mkWriter (Boundary w) p.

(** Writing through a part writes to the sink of the writer and keeps the
    error. *)
#[global] Instance part_Writer {S} `{io_Writer S} : io_Writer (S * part) :=
  fun st d =>
    let '(sink, p) := st in
    if closed p then (st, Some ErrPartFinished)
    else
      match Write sink d with
      | (sink, Some err) => ((sink, mkPart (Some err) (closed p)), Some err)
      | (sink, None) => ((sink, p), None)
      end.

(** [w.lastpart.close()] when there is a last part. *)
Definition close_lastpart (w : Writer) : Writer * option error :=
  match lastpart w with
  | Some p => (set_lastpart w (Some (mkPart (we p) true)), we p)
  | None => (w, None)
  end.

Fixpoint field_lines (k : string) (vals : list string) : string :=
  match vals with
  | [] => EmptyString
  | v :: rest => k ++ ": " ++ v ++ CRLF ++ field_lines k rest
  end.

(** The header lines of a part, by increasing key. *)
Fixpoint header_lines (h : MIMEHeader) : string :=
  match h with
  | [] => EmptyString
  | (k, vals) :: rest => field_lines k vals ++ header_lines rest
  end.

(** [w.CreatePart(header)]: the delimiter line, the header lines and an
    empty line go to the sink in one [Write]. *)
Definition CreatePart {S} `{io_Writer S} (w : Writer) (sink : S) (header : MIMEHeader)
  : Writer * S * (error + part) :=
  match close_lastpart w with
  | (w, Some err) => (w, sink, inl err)
  | (w, None) =>
      let b :=
        (match lastpart w with
         | Some _ => CRLF ++ "--" ++ Boundary w ++ CRLF
         | None => "--" ++ Boundary w ++ CRLF
         end) ++ header_lines (sorted header) ++ CRLF in
      match Write sink b with
      | (sink, Some err) => (w, sink, inl err)
      | (sink, None) =>
          let p := mkPart None false in
          (set_lastpart w (Some p), sink, inr p)
      end
  end.

(** [w.Close()]: the last part is closed, then the closing delimiter is
    written. *)
Definition Close {S} `{io_Writer S} (w : Writer) (sink : S) : Writer * S * option error :=
  match close_lastpart w with
  | (w, Some err) => (w, sink, Some err)
  | (w, None) =>
      let w := set_lastpart w None in
      let '(sink, err) := Write sink (CRLF ++ "--" ++ Boundary w ++ "--" ++ CRLF)%string in
      (w, sink, err)
  end.

End multipart.

(** ** The composer *)

Definition dquote : ascii := "034"%char.

(** A step that can fail: go on with the new sink, or return the error. *)
Notation "'try' w '<-' c 'in' k" :=
  (match c with
   | (w, Some err) => (w, Some err)
   | (w, None) => k
   end)
  (at level 10, w name, c at level 100, k at level 200, only parsing).

Section Composer.

Context {S : Type} `{io_Writer S}.
Variable lib : GoLib.
Variable world : World.

(** [fmt.Fprintf(w, ...)], result dropped: one [Write] of the formatted
    bytes. *)
Definition Fprintf_ (w : S) (formatted : string) : S := fst (Write w formatted).

(** [mime.QEncoding.Encode("UTF-8", s)]: [s] itself unless a byte of it
    is neither printable ASCII nor a tab. *)
Definition needsEncoding (s : string) : bool :=
  negb (all_bytes
          (fun b => ((N.leb 32 (N_of_ascii b) && N.leb (N_of_ascii b) 126)
                     || N.eqb (N_of_ascii b) 9)%bool) s).

Definition QEncode (s : string) : string :=
  if needsEncoding s then encodeWord lib s else s.

(** The inner loop of [headerToBytes], over the values of one field. *)
Fixpoint headerToBytes_vals (w : S) (field : string) (vals : list string) : S :=
  match vals with
  | [] => w
  | subval :: rest =>
      let w := WriteString_ w field in
      let w := WriteString_ w ": " in
      let w :=
        if (String.eqb field "Content-Type" || String.eqb field "Content-Disposition")%bool
        then fst (Write w subval)
        else fst (Write w (QEncode subval)) in
      let w := WriteString_ w CRLF in
      headerToBytes_vals w field rest
  end.

(** The outer loop, over the entries in the order of the visit. *)
Fixpoint headerToBytes_fields (w : S) (entries : MIMEHeader) : S :=
  match entries with
  | [] => w
  | (field, vals) :: rest =>
      headerToBytes_fields (headerToBytes_vals w field vals) rest
  end.

(** [headerToBytes(w, header)]: no error of the sink is looked at. *)
Definition headerToBytes (w : S) (header : MIMEHeader) : S :=
  headerToBytes_fields w (map_order world header).

(** [e.Headers()]; the error it returns is always nil. *)
Definition Headers (e : MailConfig) : MIMEHeader :=
  let res : MIMEHeader := [] in
  let res :=
    match lookup res "To" with
    | None => if Nat.ltb 0 (String.length (To e)) then Set_ res "To" (To e) else res
    | Some _ => res
    end in
  let res :=
    match lookup res "Subject" with
    | None => if nonempty (Subject e) then Set_ res "Subject" (Subject e) else res
    | Some _ => res
    end in
  let res :=
    match lookup res "From" with
    | None => Set_ res "From" (From e)
    | Some _ => res
    end in
  res.

(** [attach(w, filename)]; [sink] is the writer that [w] writes to. *)
Definition attach (w : multipart.Writer) (sink : S) (filename : string)
  : multipart.Writer * S * option error :=
  let typ := mime_TypeByExtension lib (filepath_Ext lib filename) in
  let Header : MIMEHeader := [] in
  let Header :=
    if nonempty typ then Set_ Header "Content-Type" typ
    else Set_ Header "Content-Type" "application/octet-stream" in
  let basename := filepath_Base lib filename in
  let Header :=
    Set_ Header "Content-Disposition"
      ("attachment;" ++ CRLF ++ " filename=" ++ String dquote basename
       ++ String dquote EmptyString) in
  let Header := Set_ Header "Content-ID" ("<" ++ basename ++ ">") in
  let Header := Set_ Header "Content-Transfer-Encoding" "base64" in
  match os_Open world filename with
  | inl err => (w, sink, Some err)
  | inr File =>
      match multipart.CreatePart w sink Header with
      | (w, sink, inl err) => (w, sink, Some err)
      | (w, sink, inr mw) =>
          (* mw and w.lastpart are one object *)
          let '((sink, mw), err) := base64Wrap (sink, mw) (file_reader maxRaw File) in
          (multipart.set_lastpart w (Some mw), sink, err)
      end
  end.

(** The lines of a [quotedprintable.Writer] going to the sink: the first
    that the sink refuses ends the call with that error. *)
Fixpoint qp_flush (w : S) (lines : list string) : S * option error :=
  match lines with
  | [] => (w, None)
  | line :: rest => try w <- Write w line in qp_flush w rest
  end.

(** The text part, lines 159 to 198 of the source. *)
Definition Writer_body (e : MailConfig) (datawriter : S) (header : MIMEHeader)
  : S * option error :=
  let subWriter := multipart.NewWriter (boundary_inner world) in
  let header :=
    Set_ header "Content-Type"
      ("multipart/alternative;" ++ CRLF ++ " boundary="
       ++ multipart.Boundary subWriter ++ CRLF) in
  let datawriter := headerToBytes datawriter header in
  let header := Set_ header "Content-Type" ("text/" ++ Type_ e ++ "; charset=UTF-8") in
  let header := Set_ header "Content-Transfer-Encoding" "quoted-printable" in
  if nonempty (Content e) then
    match multipart.CreatePart subWriter datawriter header with
    | (_, datawriter, inl err) => (datawriter, Some err)
    | (subWriter, datawriter, inr _) =>
        try datawriter <- qp_flush datawriter (qp_Write lib (Content e)) in
        try datawriter <- qp_flush datawriter (qp_Close lib (Content e)) in
        let '(_, datawriter, err) := multipart.Close subWriter datawriter in
        (datawriter, err)
    end
  else
    match multipart.CreatePart subWriter datawriter header with
    | (_, datawriter, inl err) => (datawriter, Some err)
    | (subWriter, datawriter, inr _) =>
        match os_Open world (ContentPath e) with
        | inl err => (datawriter, Some err)
        | inr File =>
            (* io.Copy(qp, File) *)
            try datawriter <- qp_flush datawriter (qp_Write lib (f_bytes File)) in
            match f_err File with
            | Some err => (datawriter, Some err)
            | None =>
                try datawriter <- qp_flush datawriter (qp_Close lib (f_bytes File)) in
                let '(_, datawriter, err) := multipart.Close subWriter datawriter in
                (datawriter, err)
            end
        end
    end.

(** The loop over the attachment paths, lines 202 to 208. *)
Fixpoint Writer_attachments (w : multipart.Writer) (datawriter : S) (list : list string)
  : S * option error :=
  match list with
  | [] => (datawriter, None)
  | path :: rest =>
      match attach w datawriter path with
      | (w, datawriter, Some err) =>
          let '(_, datawriter, _) := multipart.Close w datawriter in
          (datawriter, Some err)
      | (w, datawriter, None) => Writer_attachments w datawriter rest
      end
  end.

(** [e.Writer(datawriter)] *)
Definition Writer (e : MailConfig) (datawriter : S) : S * option error :=
  let headers := Headers e in
  let w := multipart.NewWriter (boundary_outer world) in
  let headers :=
    Set_ headers "Content-Type"
      ("multipart/mixed;" ++ CRLF ++ " boundary=" ++ multipart.Boundary w) in
  let datawriter := headerToBytes datawriter headers in
  let datawriter := WriteString_ datawriter CRLF in
  let datawriter := Fprintf_ datawriter ("--" ++ multipart.Boundary w ++ CRLF) in
  let header : MIMEHeader := [] in
  try datawriter <-
    (if (nonempty (Content e) || nonempty (ContentPath e))%bool
     then Writer_body e datawriter header
     else (datawriter, None)) in
  if nonempty (Attachments e)
  then Writer_attachments w datawriter (Split (Attachments e) comma)
  else (datawriter, None).

End Composer.

(** ** The SMTP session *)

(** The calls that a run makes on the world outside of the composer, in
    order; one call on the SMTP client may put several lines on the wire. *)
Inductive Call : Type :=
| CLen                         (* mailConfig.Len(), the stat calls *)
| CPrintf (err : error)        (* fmt.Printf of the size failure *)
| CCreate                      (* os.Create of the temporary file *)
| CWriter                      (* mailConfig.Writer(file) *)
| CSinkClose                   (* file.Close() *)
| CRemove                      (* os.Remove of the temporary file *)
| CDial (addr : string)        (* smtp.Dial: the socket is opened *)
| CHello (host : string)
| CStartTLS (serverName : string)
| CAuth                        (* client.Auth(auth) *)
| CMail (from : string)
| CRcpt (to : string)
| CData
| CSeek                        (* body.Seek(0, 0) *)
| CCopy (payload : string)     (* io.Copy(w, body) *)
| CDataClose                   (* w.Close(): the end-of-data line *)
| CQuit                        (* client.Quit() *)
| CClose.                      (* client.Close(): the connection is released *)

(** The answers of the mail server and of the network during one
    session; [on_Rcpt k] is the answer to the [k]-th RCPT command. *)
Record Server : Type := mkServer {
  on_Dial : option error;
  on_Hello : option error;
  offers_STARTTLS : bool;
  on_StartTLS : option error;
  on_Auth : option error;
  on_Mail : option error;
  on_Rcpt : nat -> option error;
  on_Data : option error;
  on_Copy : option error;
  on_DataClose : option error;
  on_Quit : option error
}.

(** The [io.Reader] handed to [MailSend]: [unread] is what reading from
    its current position delivers, and [rewound] is [Some all] when it is
    an [io.Seeker] that delivers [all] from offset zero. *)
Record Body : Type := mkBody { unread : string; rewound : option string }.

(** One call on the client: on an error the function returns it, and
    otherwise goes on with [k]. *)
Definition andThen (c : Call) (answer : option error) (k : option error * list Call)
  : option error * list Call :=
  match answer with
  | Some err => (Some err, [c])
  | None => (fst k, c :: snd k)
  end.

(** The loop over the recipients, lines 90 to 94; [i] counts the RCPT
    commands issued before. *)
Fixpoint MailSend_rcpts (srv : Server) (i : nat) (to : list string)
    (k : option error * list Call) : option error * list Call :=
  match to with
  | [] => k
  | addr :: rest =>
      andThen (CRcpt addr) (on_Rcpt srv i) (MailSend_rcpts srv (S i) rest k)
  end.

(** Lines 96 to 115: the DATA phase and QUIT. *)
Definition MailSend_data (srv : Server) (body : Body) : option error * list Call :=
  andThen CData (on_Data srv)
    (let k :=
       andThen (CCopy match rewound body with Some all => all | None => unread body end)
         (on_Copy srv)
         (andThen CDataClose (on_DataClose srv)
            (on_Quit srv, [CQuit])) in
     match rewound body with
     | Some _ => (fst k, CSeek :: snd k)
     | None => k
     end).

(** Lines 70 to 115, what runs between [defer client.Close()] and the
    return. *)
Definition MailSend_session (srv : Server) (msg : MailConfig) (body : Body)
    (to : list string) : option error * list Call :=
  let host := hd EmptyString (Split (Host msg) colon) in
  andThen (CHello host) (on_Hello srv)
    (let k :=
       andThen CAuth (on_Auth srv)
         (andThen (CMail (From msg)) (on_Mail srv)
            (MailSend_rcpts srv 0 to (MailSend_data srv body))) in
     if offers_STARTTLS srv
     then andThen (CStartTLS host) (on_StartTLS srv) k
     else k).

(** [MailSend(msg, auth, body)]; the deferred [client.Close()] runs at
    every return that follows a successful [smtp.Dial]. *)
Definition MailSend (srv : Server) (msg : MailConfig) (body : Body)
  : option error * list Call :=
  let to := Split (To msg) comma in
  if (negb (nonempty (From msg)) || Nat.eqb (List.length to) 0)%bool
  then (Some ErrNoAddress, [])
  else
    match on_Dial srv with
    | Some err => (Some err, [CDial (Host msg)])
    | None =>
        let k := MailSend_session srv msg body to in
        (fst k, CDial (Host msg) :: snd k ++ [CClose])%list
    end.

(** ** MailRun *)

Definition memMaxSize : Z := Z.shiftl 10 20.

(** Everything outside of the program during one run of [MailRun]. *)
Record Outside : Type := mkOutside {
  world : World;
  server : Server;
  on_Create : option error;            (* os.Create of the temporary file *)
  file_verdict : nat -> option error   (* the writes to the temporary file *)
}.

(** A run returns an error value, or panics. *)
Inductive Outcome : Type :=
| Returned (err : option error)
| Panicked.

(** Lines 45 to 55, for either kind of sink: [as_body] is the sink seen
    as the reader that [MailSend] gets, [closer] tells whether the sink is
    an [io.Closer]. *)
Definition MailRun_send {S} `{io_Writer S} (lib : GoLib) (out : Outside)
    (mailConfig : MailConfig) (file : S) (as_body : S -> Body) (closer : bool)
  : option error * list Call :=
  match Writer lib (world out) mailConfig file with
  | (_, Some err) => (Some (ErrCompose err), [CWriter])
  | (file, None) =>
      let k := MailSend (server out) mailConfig (as_body file) in
      (fst k, CWriter :: snd k ++ (if closer then [CSinkClose] else []))%list
  end.

(** [MailRun(mailConfig)] *)
Definition MailRun (lib : GoLib) (out : Outside) (mailConfig : MailConfig)
  : Outcome * list Call :=
  if (negb (nonempty (User mailConfig)) || negb (nonempty (Passwd mailConfig))
      || negb (nonempty (From mailConfig)) || negb (nonempty (To mailConfig)))%bool
  then (Returned (Some ErrArgs), [])
  else
    match Len (world out) mailConfig with
    | (_, Some err) => (Returned None, [CLen; CPrintf err])
    | (size, None) =>
        if (memMaxSize <=? size)%Z then
          match on_Create out with
          | Some err => (Returned (Some (ErrCreateTemp err)), [CLen; CCreate])
          | None =>
              (* defer os.Remove(temp) *)
              let k :=
                MailRun_send lib out mailConfig (sk_new (file_verdict out))
                  (fun file => mkBody EmptyString (Some (sk_bytes file))) true in
              (Returned (fst k), CLen :: CCreate :: snd k ++ [CRemove])%list
          end
        else if (size <? 0)%Z then
          (* make([]byte, 0, size) with a negative capacity *)
          (Panicked, [CLen])
        else
          let k :=
            MailRun_send lib out mailConfig (mkBuffer EmptyString)
              (fun file => mkBody (buf_bytes file) None) false in
          (Returned (fst k), CLen :: snd k)
    end.

(** ** Observations on a run *)

(** The recipients of the RCPT commands of a run, in order. *)
Fixpoint rcpts_of (calls : list Call) : list string :=
  match calls with
  | [] => []
  | CRcpt addr :: rest => addr :: rcpts_of rest
  | _ :: rest => rcpts_of rest
  end.

Definition is_CRcpt (c : Call) : bool :=
  match c with
  | CRcpt _ => true
  | _ => false
  end.

(** Every step of the session before RCPT was accepted. *)
Definition reaches_rcpt (srv : Server) : Prop :=
  on_Dial srv = None /\ on_Hello srv = None
  /\ (offers_STARTTLS srv = true -> on_StartTLS srv = None)
  /\ on_Auth srv = None /\ on_Mail srv = None.

(** Every step of a session with [n] recipients before QUIT was accepted. *)
Definition steps_succeed (srv : Server) (n : nat) : Prop :=
  on_Hello srv = None
  /\ (offers_STARTTLS srv = true -> on_StartTLS srv = None)
  /\ on_Auth srv = None /\ on_Mail srv = None
  /\ (forall i, i < n -> on_Rcpt srv i = None)
  /\ on_Data srv = None /\ on_Copy srv = None /\ on_DataClose srv = None.

(** The calls of a session that precede the RCPT commands. *)
Definition prelude (srv : Server) (msg : MailConfig) : list Call :=
  let host := hd EmptyString (Split (Host msg) colon) in
  (CDial (Host msg) :: CHello host
   :: (if offers_STARTTLS srv then [CStartTLS host] else [])
   ++ [CAuth; CMail (From msg)])%list.

(** QUIT is always attempted and gives the result: what C7 says of a run
    that has a connection. *)
Definition quit_always_attempted (srv : Server) (msg : MailConfig) (body : Body) : Prop :=
  From msg <> EmptyString -> on_Dial srv = None ->
  In CQuit (snd (MailSend srv msg body))
  /\ fst (MailSend srv msg body) = on_Quit srv.

(** What holds of the RCPT commands at every stage of a session with the
    recipients [to]: they go to a prefix of [to], and to all of [to] once
    DATA is issued. *)
Definition rcpt_ordered (to : list string) (k : option error * list Call) : Prop :=
  (exists n, rcpts_of (snd k) = firstn n to)
  /\ (In CData (snd k) -> rcpts_of (snd k) = to).

(** At every stage either QUIT is among the calls or the result is an
    error. *)
Definition quit_or_error (k : option error * list Call) : Prop :=
  In CQuit (snd k) \/ exists err, fst k = Some err.

(** The line that closes the multipart body with boundary [b]. *)
Definition closing_delimiter (b : string) : string :=
  CRLF ++ "--" ++ b ++ "--" ++ CRLF.

(** The bytes that [headerToBytes] sends for one entry of a header. *)
Fixpoint entry_lines (lib : GoLib) (field : string) (vals : list string) : string :=
  match vals with
  | [] => EmptyString
  | subval :: rest =>
      field ++ ": "
      ++ (if (String.eqb field "Content-Type" || String.eqb field "Content-Disposition")%bool
          then subval else QEncode lib subval)
      ++ CRLF ++ entry_lines lib field rest
  end.

Definition header_line (lib : GoLib) (entry : string * list string) : string :=
  entry_lines lib (fst entry) (snd entry).

(** The header that [Writer] sends first: the fields of [Headers] and the
    content type with the outer boundary. *)
Definition top_headers (e : MailConfig) (boundary : string) : MIMEHeader :=
  Set_ (Headers e) "Content-Type" ("multipart/mixed;" ++ CRLF ++ " boundary=" ++ boundary).

(** The lines of a header one after the other. *)
Definition concat_lines (lines : list string) : string :=
  fold_right String.append EmptyString lines.

(** Lines 154 to 210 of [Writer]: what follows the first call of
    [headerToBytes]. *)
Definition Writer_after_headers {S} `{io_Writer S} (lib : GoLib) (world : World)
    (e : MailConfig) (datawriter : S) : S * option error :=
  let w := multipart.NewWriter (boundary_outer world) in
  let datawriter := WriteString_ datawriter CRLF in
  let datawriter := Fprintf_ datawriter ("--" ++ multipart.Boundary w ++ CRLF) in
  let header : MIMEHeader := [] in
  try datawriter <-
    (if (nonempty (Content e) || nonempty (ContentPath e))%bool
     then Writer_body lib world e datawriter header
     else (datawriter, None)) in
  if nonempty (Attachments e)
  then Writer_attachments lib world w datawriter (Split (Attachments e) comma)
  else (datawriter, None).

(** The buffer [b] when the bytes [c] were in it before. *)
Definition pre (c : string) (b : Buffer) : Buffer := mkBuffer (c ++ buf_bytes b).

(** The world [w] with another order of visit of the maps. *)
Definition with_order (w : World) (order : MIMEHeader -> MIMEHeader) : World :=
  mkWorld (os_Lstat w) (os_Open w) (boundary_outer w) (boundary_inner w) order.

(** Two runs of [Writer] on the same message, in worlds that differ in
    the order of visit of the maps only (the same files, the same two
    boundaries), fill two buffers with the same bytes: what C8 says, the
    boundaries set apart. *)
Definition composes_identically (lib : GoLib) (base : World)
    (order1 order2 : MIMEHeader -> MIMEHeader) (e : MailConfig) : Prop :=
  Writer lib (with_order base order1) e (mkBuffer EmptyString)
  = Writer lib (with_order base order2) e (mkBuffer EmptyString).

(** Two byte strings that are the same but for the boundary tokens: where
    the first has its outer boundary [o1] or its inner boundary [i1], the
    second has its own, [o2] or [i2]; every other byte is the same in
    both, in the same order. *)
Inductive alike (o1 i1 o2 i2 : string) : string -> string -> Prop :=
| alike_end : alike o1 i1 o2 i2 EmptyString EmptyString
| alike_byte (c : ascii) (s t : string) :
    alike o1 i1 o2 i2 s t -> alike o1 i1 o2 i2 (String c s) (String c t)
| alike_outer (s t : string) :
    alike o1 i1 o2 i2 s t -> alike o1 i1 o2 i2 (o1 ++ s) (o2 ++ t)
| alike_inner (s t : string) :
    alike o1 i1 o2 i2 s t -> alike o1 i1 o2 i2 (i1 ++ s) (i2 ++ t).

(** Two multipart writers at the same point of their work, each with its
    own boundary. *)
Definition matching (o1 i1 o2 i2 : string) (w1 w2 : multipart.Writer) : Prop :=
  multipart.lastpart w1 = multipart.lastpart w2
  /\ alike o1 i1 o2 i2 (multipart.Boundary w1) (multipart.Boundary w2).

(** The lines of the top header of a message composed with the outer
    boundary [o], in the order of [Headers]: the lines of [To], [Subject]
    and [From], which hold no boundary, and the line of the content type,
    which ends with [o]. *)
Definition top_lines (lib : GoLib) (e : MailConfig) (o : string) : list string :=
  (map (header_line lib) (Headers e)
   ++ [header_line lib
         ("Content-Type", [("multipart/mixed;" ++ CRLF ++ " boundary=" ++ o)%string])])%list.

(** What the size estimate is described to be: the length of the body (or
    the size of the body file) plus the sizes of all the attachments,
    whether or not there is a body. *)
Definition Len_described (world : World) (e : MailConfig) : Z * option error :=
  let body :=
    if nonempty (Content e) then inr (Z.of_nat (String.length (Content e)))
    else if nonempty (ContentPath e) then os_Lstat world (ContentPath e)
    else inr 0%Z in
  match body with
  | inl err => (0%Z, Some err)
  | inr l => Len_tail world e (wrap64 l)
  end.

(** What the wrapping is described to be: every chunk of 57 bytes, the
    last and shorter one too, goes out as its own base64 text and CRLF. *)
Definition base64Wrap_described (data : string) : list string :=
  map (fun chunk => base64.Encode chunk ++ CRLF)
      (file_chunks (String.length data) maxRaw data).

(** ** A sample environment

    The examples below run in this environment.  Its library agrees with
    the Go library on what the examples pass to it: texts of printable
    ASCII shorter than a line, paths on Unix that are not empty and do not
    end in a slash, and extensions that the tables of the host do not
    list. *)

Module Sample.

Definition upperhex : string := "0123456789ABCDEF".

Definition hex (n : N) : ascii :=
  match String.get (N.to_nat n) upperhex with
  | Some c => c
  | None => NUL
  end.

(** [writeQString] of package mime. *)
Fixpoint writeQString (s : string) : string :=
  match s with
  | EmptyString => EmptyString
  | String b t =>
      let n := N_of_ascii b in
      if N.eqb n 32 then String "_"%char (writeQString t)
      else if (N.leb 33 n && N.leb n 126
               && negb (mem_ascii b "=?_"))%bool
      then String b (writeQString t)
      else String "="%char (String (hex (N.shiftr n 4))
             (String (hex (N.land n 15)) (writeQString t)))
  end.

(** An encoded-word that needs no split. *)
Definition encodeWord (s : string) : string :=
  "=?UTF-8?q?" ++ writeQString s ++ "?=".

Fixpoint has_slash (s : string) : bool :=
  match s with
  | EmptyString => false
  | String c t => (Ascii.eqb c "/"%char || has_slash t)%bool
  end.

(** The suffix that begins at the last dot of the last element. *)
Fixpoint Ext (path : string) : string :=
  match path with
  | EmptyString => EmptyString
  | String c t =>
      match Ext t with
      | EmptyString =>
          if (Ascii.eqb c "."%char && negb (has_slash t))%bool then path
          else EmptyString
      | ext => ext
      end
  end.

(** The last element of the path. *)
Definition Base (path : string) : string :=
  last (Split path "/"%char) EmptyString.

Definition lib : GoLib :=
  mkGoLib encodeWord (fun _ => []) (fun p => [p]) Ext Base (fun _ => EmptyString).

(** Two files: [a.bin] holds the byte [A], [notes.txt] the five bytes
    [hello]; no other path exists. *)
Definition ENOENT : error := Errno 2.

Definition files (path : string) : option string :=
  if String.eqb path "a.bin" then Some "A"
  else if String.eqb path "notes.txt" then Some "hello"
  else None.

Definition Lstat (path : string) : error + Z :=
  match files path with
  | Some data => inr (Z.of_nat (String.length data))
  | None => inl ENOENT
  end.

Definition Open (path : string) : error + File :=
  match files path with
  | Some data => inr (mkFile data None)
  | None => inl ENOENT
  end.

(** The boundaries are short here; the ones of Go are 60 hexadecimal
    digits. *)
Definition world : World :=
  mkWorld Lstat Open "OUTER" "INNER" (fun h => h).

(** The same world when the runtime visits the maps the other way round. *)
Definition world_rev : World := with_order world (@rev _).

(** Another run of the runtime: the same files, two other boundaries, and
    the maps visited the other way round. *)
Definition world_other : World :=
  mkWorld Lstat Open "B1" "B2" (@rev _).

(** The message of the end-to-end scenario. *)
Definition msg : MailConfig :=
  mkMailConfig "user" "secret" "mail.x.com:25" "a@x.com" "b@x.com,c@x.com"
    "plain" "hi" "hello" EmptyString EmptyString.

Definition with_To (e : MailConfig) (to : string) : MailConfig :=
  mkMailConfig (User e) (Passwd e) (Host e) (From e) to (Type_ e) (Subject e)
    (Content e) (ContentPath e) (Attachments e).

Definition with_body (e : MailConfig) (content contentPath attachments : string)
  : MailConfig :=
  mkMailConfig (User e) (Passwd e) (Host e) (From e) (To e) (Type_ e) (Subject e)
    content contentPath attachments.

Definition with_login (e : MailConfig) (user passwd : string) : MailConfig :=
  mkMailConfig user passwd (Host e) (From e) (To e) (Type_ e) (Subject e)
    (Content e) (ContentPath e) (Attachments e).

(** A server that accepts everything, one that refuses the greeting, and
    one that refuses the second recipient. *)
Definition accepting : Server :=
  mkServer None None false None None None (fun _ => None) None None None None.

Definition refuses_hello : Server :=
  mkServer None (Some (Errno 554)) false None None None (fun _ => None)
    None None None None.

Definition refuses_second_rcpt : Server :=
  mkServer None None false None None None
    (fun k => if Nat.eqb k 1 then Some (Errno 550) else None)
    None None None None.

Definition outside : Outside := mkOutside world accepting None (fun _ => None).

(** A sink that refuses every write. *)
Definition EIO : error := Errno 5.
Definition broken_sink : Scripted := sk_new (fun _ => Some EIO).

(** A sink that takes every write. *)
Definition sound_sink : Scripted := sk_new (fun _ => None).

(** A sink that takes the first [n] writes and refuses the later ones. *)
Definition full_after (n : nat) : Scripted :=
  sk_new (fun k => if Nat.ltb k n then None else Some EIO).

Definition body : Body := mkBody "payload" None.

End Sample.

(** ** Further observations *)

(** What a reader ends with: the first error it returns, and nil when
    that is [io.EOF] or when the script ends. *)
Fixpoint reader_outcome (r : Reader) : option error :=
  match r with
  | [] => None
  | (_, Some e) :: _ => if is_EOF e then None else Some e
  | (_, None) :: r' => reader_outcome r'
  end.

(** The number of calls of [Read] that return no error before the first
    that returns one. *)
Fixpoint reads_before_error (r : Reader) : nat :=
  match r with
  | [] => 0
  | (_, Some _) :: _ => 0
  | (_, None) :: r' => S (reads_before_error r')
  end.

(** The number of values that a header holds, all fields together. *)
Fixpoint values_count (h : MIMEHeader) : nat :=
  match h with
  | [] => 0
  | (_, vals) :: rest => List.length vals + values_count rest
  end.

(** The message [e] with another [ContentPath], and with other
    [Attachments]. *)
Definition with_ContentPath (e : MailConfig) (contentPath : string) : MailConfig :=
  mkMailConfig (User e) (Passwd e) (Host e) (From e) (To e) (Type_ e) (Subject e)
    (Content e) contentPath (Attachments e).

Definition with_Attachments (e : MailConfig) (attachments : string) : MailConfig :=
  mkMailConfig (User e) (Passwd e) (Host e) (From e) (To e) (Type_ e) (Subject e)
    (Content e) (ContentPath e) attachments.

(** The paths that [Len] and [Writer] loop over. *)
Definition attachment_paths (e : MailConfig) : list string :=
  if nonempty (Attachments e) then Split (Attachments e) comma else [].

(** The bytes that [io.Copy] reads from a body. *)
Definition payload_of (body : Body) : string :=
  match rewound body with
  | Some all => all
  | None => unread body
  end.

(** The calls that [MailSend] makes on the SMTP client. *)
Definition is_smtp (c : Call) : bool :=
  match c with
  | CLen | CPrintf _ | CCreate | CWriter | CSinkClose | CRemove => false
  | _ => true
  end.

(** The calls of a session between the last RCPT and the release. *)
Definition data_calls (body : Body) : list Call :=
  (CData :: (match rewound body with Some _ => [CSeek] | None => [] end)
   ++ [CCopy (payload_of body); CDataClose; CQuit])%list.

(** No part handed out by the writer has seen a write fail. *)
Definition clean (w : multipart.Writer) : Prop :=
  match multipart.lastpart w with
  | Some p => multipart.we p = None
  | None => True
  end.

(** Every file that composing [e] opens can be opened and read to its
    end. *)
Definition files_readable (world : World) (e : MailConfig) : Prop :=
  (Content e = EmptyString -> ContentPath e <> EmptyString ->
   exists data, os_Open world (ContentPath e) = inr (mkFile data None))
  /\ (forall path, In path (attachment_paths e) ->
      exists data, os_Open world path = inr (mkFile data None)).

(** The sizes that [os.Lstat] reports for the paths. *)
Definition stat_sizes (world : World) (paths : list string) (sizes : list Z) : Prop :=
  Forall2 (fun path size => os_Lstat world path = inr size) paths sizes.

(** A full line of the wrapping: the base64 text of 57 bytes, and CRLF. *)
Definition full_line (line : string) : Prop :=
  exists raw, String.length raw = maxRaw /\ line = base64.Encode raw ++ CRLF.

(** The steps of a session after the dial, in order: each call on the
    client and the answer to it.  The rewind of the body has no answer
    that the code looks at. *)
Fixpoint rcpt_steps (srv : Server) (i : nat) (to : list string)
  : list (Call * option error) :=
  match to with
  | [] => []
  | addr :: rest => (CRcpt addr, on_Rcpt srv i) :: rcpt_steps srv (S i) rest
  end.

Definition session_steps (srv : Server) (msg : MailConfig) (body : Body)
  : list (Call * option error) :=
  let host := hd EmptyString (Split (Host msg) colon) in
  ((CHello host, on_Hello srv)
   :: (if offers_STARTTLS srv then [(CStartTLS host, on_StartTLS srv)] else [])
   ++ [(CAuth, on_Auth srv); (CMail (From msg), on_Mail srv)]
   ++ rcpt_steps srv 0 (Split (To msg) comma)
   ++ (CData, on_Data srv)
   :: (match rewound body with Some _ => [(CSeek, None)] | None => [] end)
   ++ [(CCopy (payload_of body), on_Copy srv); (CDataClose, on_DataClose srv);
       (CQuit, on_Quit srv)])%list.

(** Going through steps up to the first that is refused: the result and
    the calls made. *)
Fixpoint run_steps (steps : list (Call * option error)) : option error * list Call :=
  match steps with
  | [] => (None, [])
  | (c, answer) :: rest => andThen c answer (run_steps rest)
  end.

(** [Auth] is called and fails. *)
Definition auth_refused (srv : Server) : Prop :=
  on_Hello srv = None
  /\ (offers_STARTTLS srv = true -> on_StartTLS srv = None)
  /\ on_Auth srv <> None.

(** A QUIT command goes on the wire during a run with the calls [calls].
    The calls are those that [MailSend] makes on the client.  Of the
    methods it calls, [Quit] sends QUIT, and one more sends it by itself:
    [Client.Auth] of net/smtp, when it gives up an authentication (the
    mechanism refuses to start, or the server refuses the exchange, which
    [Auth] answers with a star and QUIT), and not when the connection
    breaks.  [auth_gave_up] says which of the two a failed [Auth] of the
    run is. *)
Definition quit_on_wire (auth_gave_up : bool) (srv : Server) (calls : list Call) : Prop :=
  In CQuit calls
  \/ (auth_gave_up = true /\ In CAuth calls /\ on_Auth srv <> None).

(** * Properties *)

(** ** Strings *)

Lemma append_nil_r (s : string) : s ++ EmptyString = s.
Proof. induction s as [|c s IH]; simpl; [reflexivity | now rewrite IH]. Qed.

Lemma append_assoc (s t u : string) : (s ++ t) ++ u = s ++ (t ++ u).
Proof. induction s as [|c s IH]; simpl; [reflexivity | now rewrite IH]. Qed.

Lemma length_append (s t : string) :
  String.length (s ++ t) = String.length s + String.length t.
Proof. induction s as [|c s IH]; simpl; [reflexivity | now rewrite IH]. Qed.

Lemma length_take (n : nat) (s : string) :
  String.length (take n s) = Nat.min n (String.length s).
Proof.
  revert s; induction n as [|n IH]; intros [|c s]; simpl; try reflexivity.
  now rewrite IH.
Qed.

Lemma length_drop (n : nat) (s : string) :
  String.length (drop n s) = String.length s - n.
Proof.
  revert s; induction n as [|n IH]; intros [|c s]; simpl; try reflexivity.
  apply IH.
Qed.

Lemma length_make (n : nat) : String.length (make n) = n.
Proof. induction n as [|n IH]; simpl; [reflexivity | now rewrite IH]. Qed.

Lemma nonempty_false (s : string) : nonempty s = false <-> s = EmptyString.
Proof. destruct s; simpl; split; intros E; congruence. Qed.

Lemma nonempty_true (s : string) : nonempty s = true <-> s <> EmptyString.
Proof. destruct s; simpl; split; intros E; congruence. Qed.

(** ** strings.Split *)

(** A split never returns the empty list: the test [len(to) == 0] of
    [MailSend] is never true. *)
Lemma Split_from_not_nil (sep : ascii) (s cur : string) :
  Split_from sep cur s <> [].
Proof.
  revert cur; induction s as [|c s IH]; intros cur; simpl.
  - discriminate.
  - destruct (Ascii.eqb c sep); [discriminate | apply IH].
Qed.

Lemma Split_length_pos (s : string) (sep : ascii) : 0 < List.length (Split s sep).
Proof.
  unfold Split. pose proof (Split_from_not_nil sep s EmptyString) as N.
  destruct (Split_from sep EmptyString s); [congruence | simpl; lia].
Qed.

Lemma Split_empty (sep : ascii) : Split EmptyString sep = [EmptyString].
Proof. reflexivity. Qed.

(** ** MailRun: the parameter check *)

(** When one of the four required fields is empty, [MailRun] returns the
    parameter error and has done nothing before. *)
Lemma MailRun_missing_field (lib : GoLib) (out : Outside) (cfg : MailConfig) :
  User cfg = EmptyString \/ Passwd cfg = EmptyString
  \/ From cfg = EmptyString \/ To cfg = EmptyString ->
  MailRun lib out cfg = (Returned (Some ErrArgs), []).
Proof.
  intros M. unfold MailRun.
  destruct M as [E | [E | [E | E]]]; rewrite E; simpl;
    rewrite ?orb_true_r; reflexivity.
Qed.

(** C10: with an empty [User] or an empty [Passwd], [MailRun] returns an
    error and the run has made no call at all: no size estimation, no
    composition, no network I/O. *)
Theorem MailRun_requires_credentials (lib : GoLib) (out : Outside) (cfg : MailConfig) :
  User cfg = EmptyString \/ Passwd cfg = EmptyString ->
  MailRun lib out cfg = (Returned (Some ErrArgs), []).
Proof.
  intros [E | E]; apply MailRun_missing_field; tauto.
Qed.

Lemma MailRun_requires_credentials_witness :
  (User (Sample.with_login Sample.msg EmptyString "secret") = EmptyString
   \/ Passwd (Sample.with_login Sample.msg EmptyString "secret") = EmptyString)
  /\ MailRun Sample.lib Sample.outside
       (Sample.with_login Sample.msg EmptyString "secret")
     = (Returned (Some ErrArgs), []).
Proof.
  split.
  - left; reflexivity.
  - apply (MailRun_requires_credentials Sample.lib Sample.outside
             (Sample.with_login Sample.msg EmptyString "secret")).
    left; reflexivity.
Defined.

(** With all four fields present the check lets the run go on to the size
    estimate. *)
Lemma MailRun_fields_present (lib : GoLib) (out : Outside) (cfg : MailConfig) :
  User cfg <> EmptyString -> Passwd cfg <> EmptyString ->
  From cfg <> EmptyString -> To cfg <> EmptyString ->
  exists calls, snd (MailRun lib out cfg) = CLen :: calls.
Proof.
  intros U P F T. unfold MailRun.
  apply nonempty_true in U, P, F, T. rewrite U, P, F, T. simpl.
  destruct (Len (world out) cfg) as [size [err|]].
  - eexists; reflexivity.
  - destruct (memMaxSize <=? size)%Z.
    + destruct (on_Create out); eexists; reflexivity.
    + destruct (size <? 0)%Z; eexists; reflexivity.
Qed.

(** ** MailSend: the address check *)

(** An empty sender is refused before the dial. *)
Lemma MailSend_empty_From (srv : Server) (msg : MailConfig) (body : Body) :
  From msg = EmptyString -> MailSend srv msg body = (Some ErrNoAddress, []).
Proof. intros E. unfold MailSend. rewrite E. reflexivity. Qed.

(** With a sender, whatever the recipients are, the first thing
    [MailSend] does is to dial. *)
Lemma MailSend_dials (srv : Server) (msg : MailConfig) (body : Body) :
  From msg <> EmptyString ->
  exists calls, snd (MailSend srv msg body) = CDial (Host msg) :: calls.
Proof.
  intros F. apply nonempty_true in F. unfold MailSend. rewrite F. simpl.
  pose proof (Split_length_pos (To msg) comma) as L.
  destruct (Nat.eqb_spec (List.length (Split (To msg) comma)) 0) as [Z|_]; [lia|].
  destruct (on_Dial srv); eexists; reflexivity.
Qed.

(** C6, where the code departs from it: with a sender and an empty
    recipient list [MailSend] does not fail before the socket is opened.
    Splitting the empty string gives one empty recipient, so the test on
    the length of the list passes, the server is dialled, and a server
    that accepts everything is sent a RCPT command with an empty address. *)
Theorem MailSend_empty_To_opens_socket (srv : Server) (msg : MailConfig) (body : Body) :
  From msg <> EmptyString -> To msg = EmptyString ->
  (exists calls, snd (MailSend srv msg body) = CDial (Host msg) :: calls)
  /\ (steps_succeed srv 1 -> on_Dial srv = None ->
      fst (MailSend srv msg body) = on_Quit srv
      /\ rcpts_of (snd (MailSend srv msg body)) = [EmptyString]).
Proof.
  intros F T. split; [now apply MailSend_dials|].
  intros (Hh & Ht & Ha & Hm & Hr & Hd & Hc & Hx) D.
  apply nonempty_true in F. unfold MailSend. rewrite F, T, D. simpl.
  unfold MailSend_session. rewrite Hh. simpl.
  assert (K : forall k : option error * list Call,
             (if offers_STARTTLS srv
              then andThen (CStartTLS (hd EmptyString (Split (Host msg) colon)))
                     (on_StartTLS srv) k
              else k)
             = (fst k, (if offers_STARTTLS srv
                        then [CStartTLS (hd EmptyString (Split (Host msg) colon))]
                        else []) ++ snd k)%list).
  { intros k. destruct (offers_STARTTLS srv).
    - rewrite Ht by reflexivity. reflexivity.
    - destruct k; reflexivity. }
  rewrite K. rewrite Ha, Hm. simpl. rewrite (Hr 0) by lia. simpl.
  unfold MailSend_data. rewrite Hd, Hc, Hx. simpl.
  split.
  - destruct (rewound body); reflexivity.
  - destruct (offers_STARTTLS srv), (rewound body); reflexivity.
Qed.

Lemma MailSend_empty_To_opens_socket_witness :
  From (Sample.with_To Sample.msg EmptyString) <> EmptyString
  /\ To (Sample.with_To Sample.msg EmptyString) = EmptyString
  /\ snd (MailSend Sample.accepting (Sample.with_To Sample.msg EmptyString) Sample.body)
     = [CDial "mail.x.com:25"; CHello "mail.x.com"; CAuth; CMail "a@x.com";
        CRcpt EmptyString; CData; CCopy "payload"; CDataClose; CQuit; CClose]
  /\ ((exists calls,
         snd (MailSend Sample.accepting (Sample.with_To Sample.msg EmptyString) Sample.body)
         = CDial (Host (Sample.with_To Sample.msg EmptyString)) :: calls)
      /\ (steps_succeed Sample.accepting 1 -> on_Dial Sample.accepting = None ->
          fst (MailSend Sample.accepting (Sample.with_To Sample.msg EmptyString) Sample.body)
          = on_Quit Sample.accepting
          /\ rcpts_of (snd (MailSend Sample.accepting
                              (Sample.with_To Sample.msg EmptyString) Sample.body))
             = [EmptyString])).
Proof.
  split; [discriminate|]. split; [reflexivity|]. split; [reflexivity|].
  apply (MailSend_empty_To_opens_socket Sample.accepting
           (Sample.with_To Sample.msg EmptyString) Sample.body).
  - discriminate.
  - reflexivity.
Defined.

(** ** MailRun: the size estimate that fails *)

(** C3, where the code departs from it: when the size estimate fails,
    [MailRun] prints the error and returns nil.  The later steps are given
    up, as specified: the run has stat'ed and printed and nothing
    else. *)
Theorem MailRun_drops_size_error
    (lib : GoLib) (out : Outside) (cfg : MailConfig) (err : error) :
  User cfg <> EmptyString -> Passwd cfg <> EmptyString ->
  From cfg <> EmptyString -> To cfg <> EmptyString ->
  snd (Len (world out) cfg) = Some err ->
  MailRun lib out cfg = (Returned None, [CLen; CPrintf err]).
Proof.
  intros U P F T L. unfold MailRun.
  apply nonempty_true in U, P, F, T. rewrite U, P, F, T. simpl.
  destruct (Len (world out) cfg) as [size e]. simpl in L. subst e. reflexivity.
Qed.

Lemma MailRun_drops_size_error_witness :
  snd (Len (world Sample.outside)
         (Sample.with_body Sample.msg EmptyString "missing.txt" EmptyString))
  = Some Sample.ENOENT
  /\ MailRun Sample.lib Sample.outside
       (Sample.with_body Sample.msg EmptyString "missing.txt" EmptyString)
     = (Returned None, [CLen; CPrintf Sample.ENOENT]).
Proof.
  split; [reflexivity|].
  apply (MailRun_drops_size_error Sample.lib Sample.outside
           (Sample.with_body Sample.msg EmptyString "missing.txt" EmptyString)
           Sample.ENOENT);
    solve [discriminate | reflexivity].
Defined.

(** The sibling failures of [MailRun] are returned: here the failure to
    create the temporary file. *)
Lemma MailRun_returns_create_error
    (lib : GoLib) (out : Outside) (cfg : MailConfig) (size : Z) (err : error) :
  User cfg <> EmptyString -> Passwd cfg <> EmptyString ->
  From cfg <> EmptyString -> To cfg <> EmptyString ->
  Len (world out) cfg = (size, None) -> (memMaxSize <= size)%Z ->
  on_Create out = Some err ->
  MailRun lib out cfg = (Returned (Some (ErrCreateTemp err)), [CLen; CCreate]).
Proof.
  intros U P F T L M C. unfold MailRun.
  apply nonempty_true in U, P, F, T. rewrite U, P, F, T. simpl.
  rewrite L. apply Z.leb_le in M. rewrite M, C. reflexivity.
Qed.

(** ** MailConfig.Len *)

(** With a body, inline or in a file, the estimate is the described one:
    the size of the body plus the sizes of the attachments. *)
Lemma Len_with_body (world : World) (e : MailConfig) :
  Content e <> EmptyString \/ ContentPath e <> EmptyString ->
  Len world e = Len_described world e.
Proof.
  intros B. unfold Len, Len_described.
  destruct (nonempty (Content e)) eqn:C; [reflexivity|].
  destruct (nonempty (ContentPath e)) eqn:P.
  - destruct (os_Lstat world (ContentPath e)); reflexivity.
  - apply nonempty_false in C, P. tauto.
Qed.

Lemma wrap64_small (z : Z) : (- 2 ^ 63 <= z < 2 ^ 63)%Z -> wrap64 z = z.
Proof.
  intros R. unfold wrap64.
  rewrite Z.mod_small by lia. lia.
Qed.

(** The loop adds up the sizes of the attachments, in [int64]. *)
Lemma Len_attachments_sum (world : World) (paths : list string) (sizes : list Z) (l : Z) :
  Forall2 (fun path size => os_Lstat world path = inr size) paths sizes ->
  Len_attachments world paths l
  = (fold_left (fun acc size => wrap64 (acc + size)) sizes l, None).
Proof.
  intros F. revert l. induction F as [|path size paths sizes E _ IH]; intros l; simpl.
  - reflexivity.
  - rewrite E. apply IH.
Qed.

Lemma sizes_sum_nonneg (sizes : list Z) :
  Forall (fun size => 0 <= size)%Z sizes -> (0 <= fold_right Z.add 0 sizes)%Z.
Proof. induction 1 as [|size sizes P _ IH]; simpl; lia. Qed.

(** As long as the sum stays below 2^63 the wrap-around of [int64] is not
    met and the loop returns the plain sum. *)
Lemma Len_sum_without_overflow (sizes : list Z) (l : Z) :
  (0 <= l)%Z -> Forall (fun size => 0 <= size)%Z sizes ->
  (l + fold_right Z.add 0 sizes < 2 ^ 63)%Z ->
  fold_left (fun acc size => wrap64 (acc + size)) sizes l
  = (l + fold_right Z.add 0 sizes)%Z.
Proof.
  intros L F. revert l L. induction F as [|size sizes P F IH]; intros l L B.
  - simpl. lia.
  - cbn [fold_left fold_right] in *.
    pose proof (sizes_sum_nonneg sizes F) as N.
    rewrite wrap64_small by lia. rewrite IH by lia. lia.
Qed.

(** The first path that cannot be stat'ed ends the loop with its error. *)
Lemma Len_attachments_error (world : World) (ok bad : list string) (sizes : list Z)
    (path : string) (err : error) (l : Z) :
  Forall2 (fun path size => os_Lstat world path = inr size) ok sizes ->
  os_Lstat world path = inl err ->
  Len_attachments world (ok ++ path :: bad) l = (0%Z, Some err).
Proof.
  intros F E. revert l. induction F as [|p size ps sizes Ep _ IH]; intros l; simpl.
  - rewrite E. reflexivity.
  - rewrite Ep. apply IH.
Qed.

(** C2, where the code departs from it: without a body the function
    returns 0 at once, and the attachments are neither stat'ed nor
    summed. *)
Theorem Len_without_body_is_zero (world : World) (e : MailConfig) :
  Content e = EmptyString -> ContentPath e = EmptyString ->
  Len world e = (0%Z, None).
Proof.
  intros C P. unfold Len. rewrite C, P. reflexivity.
Qed.

Lemma Len_without_body_is_zero_witness :
  Attachments (Sample.with_body Sample.msg EmptyString EmptyString "a.bin,notes.txt")
  = "a.bin,notes.txt"
  /\ Len_described Sample.world
       (Sample.with_body Sample.msg EmptyString EmptyString "a.bin,notes.txt")
     = (6%Z, None)
  /\ Len Sample.world
       (Sample.with_body Sample.msg EmptyString EmptyString "a.bin,notes.txt")
     = (0%Z, None).
Proof.
  split; [reflexivity|]. split; [reflexivity|].
  apply (Len_without_body_is_zero Sample.world
           (Sample.with_body Sample.msg EmptyString EmptyString "a.bin,notes.txt"));
    reflexivity.
Defined.

(** ** base64Wrap *)

Lemma EncodedLen_step (n : nat) :
  base64.EncodedLen (S (S (S n))) = 4 + base64.EncodedLen n.
Proof.
  unfold base64.EncodedLen.
  replace (S (S (S n)) + 2) with (n + 2 + 1 * 3) by lia.
  rewrite Nat.div_add by discriminate. lia.
Qed.

Lemma Encode_length_below (n : nat) (src : string) :
  String.length src < n ->
  String.length (base64.Encode src) = base64.EncodedLen (String.length src).
Proof.
  revert src. induction n as [|n IH]; intros src L; [lia|].
  destruct src as [|a [|b [|c rest]]]; try reflexivity.
  cbn [base64.Encode String.length] in *.
  rewrite EncodedLen_step, IH by lia. reflexivity.
Qed.

(** [Encode] fills [EncodedLen(len(src))] bytes. *)
Lemma Encode_length (src : string) :
  String.length (base64.Encode src) = base64.EncodedLen (String.length src).
Proof. apply (Encode_length_below (S (String.length src))). lia. Qed.

Lemma read_into_length (b c : string) :
  String.length (fst (read_into b c)) = String.length b.
Proof.
  unfold read_into. simpl.
  rewrite length_append, length_drop, length_take. lia.
Qed.

Lemma read_into_count (b c : string) :
  snd (read_into b c) = Nat.min (String.length b) (String.length c).
Proof. unfold read_into. simpl. apply length_take. Qed.

Lemma base64Wrap_loop_cons {S} `{io_Writer S}
    (c : string) (err : option error) (r : Reader) (b buffer : string) (w : S) :
  base64Wrap_loop ((c, err) :: r) b buffer w
  = let b' := fst (read_into b c) in
    let n := snd (read_into b c) in
    match err with
    | Some e => if is_EOF e then (w, None) else (w, Some e)
    | None =>
        if Nat.eqb n maxRaw then
          let buffer := base64.Encode_into buffer (take n b') in
          base64Wrap_loop r b' buffer (fst (Write w buffer))
        else
          let out :=
            base64.Encode_into (take (base64.EncodedLen (String.length b')) buffer) b'
            ++ CRLF in
          base64Wrap_loop r b' out (fst (Write w out))
    end.
Proof. reflexivity. Qed.

Lemma take_all (s : string) : take (String.length s) s = s.
Proof. induction s as [|c s IH]; simpl; [reflexivity | now rewrite IH]. Qed.

Lemma drop_all (s : string) : drop (String.length s) s = EmptyString.
Proof. induction s as [|c s IH]; simpl; [reflexivity | exact IH]. Qed.

Lemma drop_append (s t : string) : drop (String.length s) (s ++ t) = t.
Proof. induction s as [|c s IH]; simpl; [reflexivity | exact IH]. Qed.

Lemma take_append (s t : string) : take (String.length s) (s ++ t) = s.
Proof. induction s as [|c s IH]; simpl; [reflexivity | now rewrite IH]. Qed.

Lemma full_line_length (line : string) :
  full_line line -> String.length line = MaxLineLength + 2.
Proof.
  intros (raw & L & ->). rewrite length_append, Encode_length, L. reflexivity.
Qed.

(** Both branches of the loop send the base64 text of 57 bytes and CRLF:
    the branch of the short read encodes the whole buffer [b] as well,
    and its CRLF lands where the one of the full line stands. *)
Lemma base64Wrap_loop_lines (r : Reader) (b text : string) (w : Scripted) :
  String.length b = maxRaw ->
  String.length text = MaxLineLength ->
  Forall full_line (sk_chunks w) ->
  Forall full_line (sk_chunks (fst (base64Wrap_loop r b (text ++ CRLF) w))).
Proof.
  revert b text w. induction r as [|[c err] r IH]; intros b text w Lb Lt Fw.
  - exact Fw.
  - rewrite base64Wrap_loop_cons.
    pose proof (read_into_length b c) as Lb'. rewrite Lb in Lb'.
    set (b' := fst (read_into b c)) in *. set (n := snd (read_into b c)).
    cbv zeta.
    destruct err as [e|].
    + destruct (is_EOF e); exact Fw.
    + assert (step : forall line,
                 full_line line ->
                 Forall full_line (sk_chunks (fst (Write w line)))).
      { intros line Ll. unfold Write, Scripted_Writer.
        destruct (sk_verdict w (sk_calls w)); simpl; [exact Fw|].
        apply Forall_app; split; [exact Fw | constructor; [exact Ll | constructor]]. }
      destruct (Nat.eqb_spec n maxRaw) as [En|Nn].
      * assert (Lr : String.length (take n b') = maxRaw)
          by (rewrite length_take, Lb', En; apply Nat.min_id).
        assert (El : base64.Encode_into (text ++ CRLF) (take n b')
                     = base64.Encode (take n b') ++ CRLF).
        { unfold base64.Encode_into. f_equal.
          rewrite Encode_length, Lr.
          change (base64.EncodedLen maxRaw) with MaxLineLength.
          rewrite <- Lt. apply drop_append. }
        rewrite El.
        apply IH; [exact Lb' | rewrite Encode_length, Lr; reflexivity |].
        apply step. exists (take n b'). split; [exact Lr | reflexivity].
      * assert (El : base64.Encode_into
                       (take (base64.EncodedLen (String.length b')) (text ++ CRLF)) b'
                     = base64.Encode b').
        { unfold base64.Encode_into. rewrite Lb'.
          change (base64.EncodedLen maxRaw) with MaxLineLength.
          rewrite <- Lt, take_append.
          rewrite Encode_length, Lb'.
          change (base64.EncodedLen maxRaw) with MaxLineLength.
          rewrite <- Lt, drop_all. apply append_nil_r. }
        rewrite El.
        apply IH; [exact Lb' | rewrite Encode_length, Lb'; reflexivity |].
        apply step. exists b'. split; [exact Lb' | reflexivity].
Qed.

(** X1: Every line that [base64Wrap] gets into a sink is the base64 text
    of 57 bytes, which has 76 characters, followed by CRLF: 78 bytes,
    whatever the reader delivers and whatever the sink has refused. *)
Lemma base64Wrap_lines_are_full (r : Reader) (verdict : nat -> option error) :
  Forall (fun line =>
            (exists raw, String.length raw = maxRaw
                         /\ line = base64.Encode raw ++ CRLF)
            /\ (exists text, String.length text = MaxLineLength
                             /\ line = text ++ CRLF)
            /\ String.length line = MaxLineLength + 2)
         (sk_chunks (fst (base64Wrap (sk_new verdict) r))).
Proof.
  assert (F : Forall full_line (sk_chunks (fst (base64Wrap (sk_new verdict) r)))).
  { unfold base64Wrap. apply base64Wrap_loop_lines.
    - apply length_make.
    - apply length_make.
    - constructor. }
  apply (Forall_impl _ (P := full_line)); [|exact F].
  intros line Fl. split; [exact Fl|]. split; [|apply full_line_length, Fl].
  destruct Fl as (raw & L & ->). exists (base64.Encode raw). split; [|reflexivity].
  rewrite Encode_length, L. reflexivity.
Qed.

(** The chunks of a file whose size is a multiple of [n] all have [n]
    bytes. *)
Lemma file_chunks_full (n fuel k : nat) (data : string) :
  String.length data = n * k ->
  Forall (fun chunk => String.length chunk = n) (file_chunks fuel n data).
Proof.
  revert k data. induction fuel as [|fuel IH]; intros k data L; [constructor|].
  destruct data as [|c data]; [constructor|].
  cbn [file_chunks]. destruct k as [|k]; [simpl in L; lia|].
  constructor.
  - rewrite length_take. lia.
  - apply (IH k). rewrite length_drop. lia.
Qed.

(** The loop on chunks of 57 bytes each, into a sink that takes every
    write: each chunk goes out as its 76 characters and CRLF. *)
Lemma base64Wrap_loop_full_chunks (chunks : list string) (b line : string)
    (taken : list string) (calls : nat) :
  Forall (fun chunk => String.length chunk = maxRaw) chunks ->
  String.length b = maxRaw -> String.length line = MaxLineLength ->
  sk_chunks
    (fst (base64Wrap_loop
            (map (fun chunk => (chunk, None)) chunks ++ [(EmptyString, Some EOF)])%list
            b (line ++ CRLF) (mkScripted taken calls (fun _ => None))))
  = (taken ++ map (fun chunk => (base64.Encode chunk ++ CRLF)%string) chunks)%list.
Proof.
  intros F. revert b line taken calls.
  induction F as [|chunk chunks Lc _ IH]; intros b line taken calls Lb Ll.
  - cbn [map app]. rewrite base64Wrap_loop_cons. simpl. now rewrite app_nil_r.
  - cbn [map app]. rewrite base64Wrap_loop_cons. cbv zeta.
    assert (Eb : fst (read_into b chunk) = chunk).
    { unfold read_into. cbn [fst]. rewrite Lb, <- Lc, take_all.
      rewrite Lc, <- Lb, drop_all. apply append_nil_r. }
    assert (En : snd (read_into b chunk) = maxRaw).
    { rewrite read_into_count. rewrite Lb, Lc. apply Nat.min_id. }
    rewrite Eb, En. cbn [Nat.eqb maxRaw].
    replace (take maxRaw chunk) with chunk by (rewrite <- Lc; symmetry; apply take_all).
    assert (El : base64.Encode_into (line ++ CRLF) chunk = base64.Encode chunk ++ CRLF).
    { unfold base64.Encode_into. f_equal.
      rewrite Encode_length, Lc.
      change (base64.EncodedLen maxRaw) with MaxLineLength.
      rewrite <- Ll. apply drop_append. }
    change (if Nat.eqb maxRaw maxRaw then ?x else ?y) with x.
    rewrite El. unfold Write at 1, Scripted_Writer. cbn [sk_verdict sk_calls sk_chunks fst].
    rewrite (IH chunk (base64.Encode chunk) _ _ Lc).
    + rewrite <- app_assoc. reflexivity.
    + rewrite Encode_length, Lc. reflexivity.
Qed.

(** X2: For a file whose size is a multiple of 57 the code sends the
    described lines: every chunk as 76 characters and CRLF, and nothing
    after the last. *)
Lemma base64Wrap_multiple_of_57 (data : string) (k : nat) :
  String.length data = maxRaw * k ->
  sk_chunks (fst (base64Wrap Sample.sound_sink
                    (file_reader maxRaw (mkFile data None))))
  = base64Wrap_described data.
Proof.
  intros L. unfold base64Wrap, file_reader, Sample.sound_sink, sk_new.
  cbn [f_bytes f_err].
  rewrite (base64Wrap_loop_full_chunks _ (make maxRaw) (make MaxLineLength) [] 0).
  - reflexivity.
  - apply (file_chunks_full maxRaw _ k). exact L.
  - apply length_make.
  - apply length_make.
Qed.

(** C1, where the code departs from it: the final short chunk is not sent
    as a shorter, padded line.  For the file that holds the one byte [A]
    the described line is [QQ==]; the code encodes the whole buffer of 57
    bytes, the byte read and the 56 bytes that follow it, and sends 76
    characters.  After a full chunk the bytes that follow are those of the
    chunk before. *)
Theorem base64Wrap_short_chunk_sent_as_full_line :
  base64Wrap_described "A" = ["QQ==" ++ CRLF]
  /\ sk_chunks (fst (base64Wrap Sample.sound_sink
                       (file_reader maxRaw (mkFile "A" None))))
     = ["QQAAAAAAAAAAAAAAAAAAAAAAAAAAAAAAAAAAAAAAAAAAAAAAAAAAAAAAAAAAAAAAAAAAAAAAAAAA"
        ++ CRLF]
  /\ sk_chunks (fst (base64Wrap Sample.sound_sink
                       (file_reader maxRaw
                          (mkFile "0123456789012345678901234567890123456789012345678901234567"
                                  None))))
     = ["MDEyMzQ1Njc4OTAxMjM0NTY3ODkwMTIzNDU2Nzg5MDEyMzQ1Njc4OTAxMjM0NTY3ODkwMTIzNDU2"
        ++ CRLF;
        "NzEyMzQ1Njc4OTAxMjM0NTY3ODkwMTIzNDU2Nzg5MDEyMzQ1Njc4OTAxMjM0NTY3ODkwMTIzNDU2"
        ++ CRLF]
  /\ base64Wrap_described "0123456789012345678901234567890123456789012345678901234567"
     = ["MDEyMzQ1Njc4OTAxMjM0NTY3ODkwMTIzNDU2Nzg5MDEyMzQ1Njc4OTAxMjM0NTY3ODkwMTIzNDU2"
        ++ CRLF;
        "Nw==" ++ CRLF]
  /\ snd (base64Wrap Sample.sound_sink (file_reader maxRaw (mkFile "A" None))) = None.
Proof. repeat split; vm_compute; reflexivity. Qed.

(** ** MailConfig.Writer: the errors of the sink *)

(** Without a body and without attachments [Writer] only calls
    [headerToBytes], [io.WriteString] and [fmt.Fprintf], and looks at none
    of their errors: it returns nil on every sink. *)
Lemma Writer_headers_only_returns_nil {S : Type} `{io_Writer S}
    (lib : GoLib) (world : World) (e : MailConfig) (datawriter : S) :
  Content e = EmptyString -> ContentPath e = EmptyString ->
  Attachments e = EmptyString ->
  snd (Writer lib world e datawriter) = None.
Proof.
  intros C P A. unfold Writer. rewrite C, P, A. reflexivity.
Qed.

(** C4, where the code departs from it.  (1) On a sink that refuses every
    write, a message without body and attachments is composed with
    success: the 18 writes of the headers, the empty line and the first
    delimiter all fail and [Writer] returns nil.  (2) When the sink takes
    the headers of an attachment and refuses its base64 line, [Writer]
    returns nil as well.  (3) A refused line of the text body is
    reported, as specified. *)
Theorem Writer_reports_only_body_write_errors :
  (let run := Writer Sample.lib Sample.world
                (Sample.with_body Sample.msg EmptyString EmptyString EmptyString)
                Sample.broken_sink in
   snd run = None /\ sk_chunks (fst run) = [] /\ sk_calls (fst run) = 18)
  /\ (let run := Writer Sample.lib Sample.world
                   (Sample.with_body Sample.msg EmptyString EmptyString "a.bin")
                   (Sample.full_after 19) in
      snd run = None /\ sk_calls (fst run) = 20
      /\ List.length (sk_chunks (fst run)) = 19)
  /\ (let run := Writer Sample.lib Sample.world Sample.msg (Sample.full_after 23) in
      snd run = Some Sample.EIO /\ sk_calls (fst run) = 24).
Proof. repeat split; vm_compute; reflexivity. Qed.

(** ** MailConfig.Writer: the boundaries *)

(** C5, where the code departs from it: on the path of success [Writer]
    never closes the outer boundary.  (1) For the message of the scenario
    the inner closing delimiter is the last thing written, once, and the
    outer one is missing.  (2) The same with an attachment, whose line is
    the last thing written.  (3) Only when an attachment fails does the
    code call [w.Close()], and then the outer closing delimiter is sent. *)
Theorem Writer_leaves_outer_boundary_open :
  (let run := Writer Sample.lib Sample.world Sample.msg Sample.sound_sink in
   snd run = None
   /\ count_occ string_dec (sk_chunks (fst run)) (closing_delimiter "INNER") = 1
   /\ count_occ string_dec (sk_chunks (fst run)) (closing_delimiter "OUTER") = 0
   /\ last (sk_chunks (fst run)) EmptyString = closing_delimiter "INNER")
  /\ (let run := Writer Sample.lib Sample.world
                   (Sample.with_body Sample.msg "hello" EmptyString "a.bin")
                   Sample.sound_sink in
      snd run = None
      /\ count_occ string_dec (sk_chunks (fst run)) (closing_delimiter "INNER") = 1
      /\ count_occ string_dec (sk_chunks (fst run)) (closing_delimiter "OUTER") = 0
      /\ last (sk_chunks (fst run)) EmptyString
         = "QQAAAAAAAAAAAAAAAAAAAAAAAAAAAAAAAAAAAAAAAAAAAAAAAAAAAAAAAAAAAAAAAAAAAAAAAAAA"
           ++ CRLF)
  /\ (let run := Writer Sample.lib Sample.world
                   (Sample.with_body Sample.msg "hello" EmptyString "a.bin,missing.bin")
                   Sample.sound_sink in
      snd run = Some Sample.ENOENT
      /\ count_occ string_dec (sk_chunks (fst run)) (closing_delimiter "OUTER") = 1
      /\ last (sk_chunks (fst run)) EmptyString = closing_delimiter "OUTER").
Proof. repeat split; vm_compute; reflexivity. Qed.

(** The bytes of the message of the scenario, as the sink holds them when
    [Writer] has returned nil. *)
Lemma Writer_scenario_bytes :
  buf_bytes (fst (Writer Sample.lib Sample.world Sample.msg (mkBuffer EmptyString)))
  = "To: b@x.com,c@x.com" ++ CRLF
    ++ "Subject: hi" ++ CRLF
    ++ "From: a@x.com" ++ CRLF
    ++ "Content-Type: multipart/mixed;" ++ CRLF ++ " boundary=OUTER" ++ CRLF
    ++ CRLF
    ++ "--OUTER" ++ CRLF
    ++ "Content-Type: multipart/alternative;" ++ CRLF ++ " boundary=INNER" ++ CRLF
    ++ CRLF
    ++ "--INNER" ++ CRLF
    ++ "Content-Transfer-Encoding: quoted-printable" ++ CRLF
    ++ "Content-Type: text/plain; charset=UTF-8" ++ CRLF
    ++ CRLF
    ++ "hello"
    ++ CRLF ++ "--INNER--" ++ CRLF.
Proof. vm_compute. reflexivity. Qed.

(** ** MailSend: the session *)

Lemma andThen_accepted (c : Call) (k : option error * list Call) :
  andThen c None k = (fst k, c :: snd k).
Proof. reflexivity. Qed.

Lemma andThen_refused (c : Call) (err : error) (k : option error * list Call) :
  andThen c (Some err) k = (Some err, [c]).
Proof. reflexivity. Qed.

Lemma rcpts_of_app (a b : list Call) :
  rcpts_of (a ++ b) = (rcpts_of a ++ rcpts_of b)%list.
Proof.
  induction a as [|c a IH]; simpl; [reflexivity|].
  destruct c; simpl; rewrite ?IH; reflexivity.
Qed.

Lemma rcpts_of_map (to : list string) : rcpts_of (map CRcpt to) = to.
Proof. induction to as [|a to IH]; simpl; [reflexivity | now rewrite IH]. Qed.

Lemma In_map_CRcpt (c : Call) (to : list string) :
  In c (map CRcpt to) -> is_CRcpt c = true.
Proof. intros I. apply in_map_iff in I. destruct I as (a & <- & _). reflexivity. Qed.

(** When every recipient is accepted the loop issues one RCPT for each,
    in order, and goes on. *)
Lemma MailSend_rcpts_all_accepted (srv : Server) (to : list string) (i : nat)
    (k : option error * list Call) :
  (forall j, j < List.length to -> on_Rcpt srv (i + j) = None) ->
  MailSend_rcpts srv i to k = (fst k, map CRcpt to ++ snd k)%list.
Proof.
  revert i. induction to as [|a to IH]; intros i A; simpl.
  - destruct k; reflexivity.
  - pose proof (A 0 ltac:(simpl; lia)) as A0. rewrite Nat.add_0_r in A0.
    rewrite A0, andThen_accepted, IH; [reflexivity|].
    intros j Lj. replace (S i + j) with (i + S j) by lia. apply A. simpl. lia.
Qed.

(** When the recipient of index [n] is the first that is refused the loop
    ends there with the error: the recipients after it get no RCPT. *)
Lemma MailSend_rcpts_first_refused (srv : Server) (to : list string) (i n : nat)
    (err : error) (k : option error * list Call) :
  n < List.length to ->
  on_Rcpt srv (i + n) = Some err ->
  (forall j, j < n -> on_Rcpt srv (i + j) = None) ->
  MailSend_rcpts srv i to k = (Some err, map CRcpt (firstn (S n) to)).
Proof.
  revert i n. induction to as [|a to IH]; intros i n L R A; simpl in L; [lia|].
  destruct n as [|n].
  - rewrite Nat.add_0_r in R. cbn [MailSend_rcpts]. rewrite R. reflexivity.
  - pose proof (A 0 ltac:(lia)) as A0. rewrite Nat.add_0_r in A0.
    cbn [MailSend_rcpts]. rewrite A0, andThen_accepted.
    rewrite (IH (S i) n); [reflexivity | lia | |].
    + replace (S i + n) with (i + S n) by lia. exact R.
    + intros j Lj. replace (S i + j) with (i + S j) by lia. apply A. lia.
Qed.

(** In every case the loop issues RCPT for a prefix of the list, then
    either goes on or stops. *)
Lemma MailSend_rcpts_prefix (srv : Server) (to : list string) (i : nat)
    (k : option error * list Call) :
  MailSend_rcpts srv i to k = (fst k, map CRcpt to ++ snd k)%list
  \/ exists n err, n < List.length to
       /\ MailSend_rcpts srv i to k = (Some err, map CRcpt (firstn (S n) to)).
Proof.
  revert i. induction to as [|a to IH]; intros i; simpl.
  - left. destruct k; reflexivity.
  - destruct (on_Rcpt srv i) as [err|].
    + right. exists 0, err. split; [lia | reflexivity].
    + rewrite andThen_accepted.
      destruct (IH (S i)) as [E | (n & err & L & E)]; rewrite E.
      * left. reflexivity.
      * right. exists (S n), err. split; [lia | reflexivity].
Qed.

(** The DATA phase issues no RCPT, and QUIT is the last call of the
    phase when it is issued. *)
Lemma MailSend_data_no_rcpt (srv : Server) (body : Body) :
  rcpts_of (snd (MailSend_data srv body)) = [].
Proof.
  unfold MailSend_data.
  destruct (on_Data srv), (on_Copy srv), (on_DataClose srv), (rewound body);
    reflexivity.
Qed.

Lemma MailSend_data_begins (srv : Server) (body : Body) :
  exists calls, snd (MailSend_data srv body) = CData :: calls.
Proof.
  unfold MailSend_data. destruct (on_Data srv); eexists; reflexivity.
Qed.

Lemma MailSend_data_accepted (srv : Server) (body : Body) :
  on_Data srv = None -> on_Copy srv = None -> on_DataClose srv = None ->
  exists calls, MailSend_data srv body = (on_Quit srv, calls ++ [CQuit])%list.
Proof.
  intros D C X. unfold MailSend_data. rewrite D, C, X.
  destruct (rewound body) as [all|].
  - exists [CData; CSeek; CCopy all; CDataClose]. reflexivity.
  - exists [CData; CCopy (unread body); CDataClose]. reflexivity.
Qed.

Lemma MailSend_data_quit (srv : Server) (body : Body) :
  In CQuit (snd (MailSend_data srv body)) ->
  on_Data srv = None /\ on_Copy srv = None /\ on_DataClose srv = None.
Proof.
  unfold MailSend_data.
  destruct (on_Data srv), (on_Copy srv), (on_DataClose srv), (rewound body);
    simpl; intros I; repeat split;
    repeat (destruct I as [I|I]; [discriminate I|]); destruct I.
Qed.

Lemma MailSend_data_error_or_quit (srv : Server) (body : Body) :
  In CQuit (snd (MailSend_data srv body))
  \/ exists err, fst (MailSend_data srv body) = Some err.
Proof.
  unfold MailSend_data.
  destruct (on_Data srv), (on_Copy srv), (on_DataClose srv), (rewound body);
    simpl; eauto 10.
Qed.

(** The session as a whole, when the steps before RCPT are accepted. *)
Lemma MailSend_reaching_rcpt (srv : Server) (msg : MailConfig) (body : Body) :
  From msg <> EmptyString -> reaches_rcpt srv ->
  MailSend srv msg body
  = (fst (MailSend_rcpts srv 0 (Split (To msg) comma) (MailSend_data srv body)),
     prelude srv msg
     ++ snd (MailSend_rcpts srv 0 (Split (To msg) comma) (MailSend_data srv body))
     ++ [CClose])%list.
Proof.
  intros F (D & Hh & Ht & Ha & Hm). apply nonempty_true in F.
  unfold MailSend, prelude. rewrite F. simpl.
  pose proof (Split_length_pos (To msg) comma) as L.
  destruct (Nat.eqb_spec (List.length (Split (To msg) comma)) 0) as [Z|_]; [lia|].
  rewrite D. unfold MailSend_session. rewrite Hh, Ha, Hm.
  destruct (offers_STARTTLS srv).
  - rewrite Ht by reflexivity. reflexivity.
  - reflexivity.
Qed.

Lemma rcpts_of_cons_other (c : Call) (calls : list Call) :
  is_CRcpt c = false -> rcpts_of (c :: calls) = rcpts_of calls.
Proof. destruct c; simpl; intros E; solve [reflexivity | discriminate E]. Qed.

Section RcptOrder.

Variable to : list string.

Lemma rcpt_ordered_loop (srv : Server) (body : Body) :
  rcpt_ordered to (MailSend_rcpts srv 0 to (MailSend_data srv body)).
Proof.
  destruct (MailSend_rcpts_prefix srv to 0 (MailSend_data srv body))
    as [E | (n & err & L & E)]; rewrite E; unfold rcpt_ordered; simpl.
  - rewrite rcpts_of_app, rcpts_of_map, MailSend_data_no_rcpt, app_nil_r.
    split; [|reflexivity].
    exists (List.length to). symmetry. apply firstn_all.
  - change (map CRcpt (match to with [] => [] | a :: l => a :: firstn n l end))
      with (map CRcpt (firstn (S n) to)).
    rewrite rcpts_of_map. split; [exists (S n); reflexivity|].
    intros I. apply In_map_CRcpt in I. discriminate I.
Qed.

Lemma rcpt_ordered_andThen (c : Call) (answer : option error)
    (k : option error * list Call) :
  is_CRcpt c = false -> c <> CData ->
  rcpt_ordered to k -> rcpt_ordered to (andThen c answer k).
Proof.
  intros NR ND [(n & P) A].
  destruct answer as [err|]; unfold rcpt_ordered; cbn [andThen fst snd].
  - rewrite rcpts_of_cons_other by exact NR. split.
    + exists 0. reflexivity.
    + intros [I|[]]. congruence.
  - rewrite rcpts_of_cons_other by exact NR. split.
    + exists n. exact P.
    + intros [I|I]; [congruence | apply A; exact I].
Qed.

Lemma rcpt_ordered_session (srv : Server) (msg : MailConfig) (body : Body) :
  rcpt_ordered to (MailSend_session srv msg body to).
Proof.
  unfold MailSend_session.
  apply rcpt_ordered_andThen; [reflexivity | discriminate |].
  assert (K : rcpt_ordered to
                (andThen CAuth (on_Auth srv)
                   (andThen (CMail (From msg)) (on_Mail srv)
                      (MailSend_rcpts srv 0 to (MailSend_data srv body))))).
  { apply rcpt_ordered_andThen; [reflexivity | discriminate |].
    apply rcpt_ordered_andThen; [reflexivity | discriminate |].
    apply rcpt_ordered_loop. }
  destruct (offers_STARTTLS srv); [|exact K].
  apply rcpt_ordered_andThen; [reflexivity | discriminate | exact K].
Qed.

End RcptOrder.

Lemma rcpt_ordered_MailSend (srv : Server) (msg : MailConfig) (body : Body) :
  rcpt_ordered (Split (To msg) comma) (MailSend srv msg body).
Proof.
  unfold MailSend.
  destruct (negb (nonempty (From msg))
            || Nat.eqb (List.length (Split (To msg) comma)) 0)%bool.
  - split; [exists 0; reflexivity | intros []].
  - destruct (on_Dial srv) as [err|].
    + split; [exists 0; reflexivity | intros [I|[]]; discriminate I].
    + destruct (rcpt_ordered_session (Split (To msg) comma) srv msg body)
        as [(n & P) A].
      unfold rcpt_ordered. simpl.
      rewrite rcpts_of_app. simpl. rewrite app_nil_r. split.
      * exists n. exact P.
      * intros [I|I]; [discriminate I|].
        apply in_app_or in I. destruct I as [I|[I|[]]]; [|discriminate I].
        apply A. exact I.
Qed.

Lemma prelude_no_rcpt (srv : Server) (msg : MailConfig) :
  rcpts_of (prelude srv msg) = [].
Proof. unfold prelude. destruct (offers_STARTTLS srv); reflexivity. Qed.

Lemma prelude_no_data (srv : Server) (msg : MailConfig) :
  ~ In CData (prelude srv msg).
Proof.
  unfold prelude. destruct (offers_STARTTLS srv); simpl; intros I;
    repeat (destruct I as [I|I]; [discriminate I|]); destruct I.
Qed.

(** C9: [MailSend] issues the RCPT commands for the recipients in the
    order of the list, one for each.  (1) In every run the RCPT commands
    go to a prefix of the list, in order.  (2) DATA is issued only after a
    RCPT for every recipient.  (3) When the session gets to the RCPT
    commands and every one is accepted, each recipient gets its command
    and DATA follows.  (4) When the recipient of index [n] is the first
    that is refused, the run is the prelude, the RCPT commands up to that
    one, and the release of the connection: nothing goes to the later
    recipients, DATA is not issued, and the error of the refusal is the
    result. *)
Theorem MailSend_rcpt_in_order_first_refusal_aborts
    (srv : Server) (msg : MailConfig) (body : Body) :
  let to := Split (To msg) comma in
  let run := MailSend srv msg body in
  (exists n, rcpts_of (snd run) = firstn n to)
  /\ (In CData (snd run) -> rcpts_of (snd run) = to)
  /\ (From msg <> EmptyString -> reaches_rcpt srv ->
      (forall j, j < List.length to -> on_Rcpt srv j = None) ->
      rcpts_of (snd run) = to /\ In CData (snd run))
  /\ (forall n err,
        From msg <> EmptyString -> reaches_rcpt srv ->
        n < List.length to -> on_Rcpt srv n = Some err ->
        (forall j, j < n -> on_Rcpt srv j = None) ->
        fst run = Some err
        /\ snd run = (prelude srv msg ++ map CRcpt (firstn (S n) to) ++ [CClose])%list
        /\ rcpts_of (snd run) = firstn (S n) to
        /\ ~ In CData (snd run)
        /\ last (snd run) CData = CClose).
Proof.
  intros to run.
  destruct (rcpt_ordered_MailSend srv msg body) as [P A].
  split; [exact P|]. split; [exact A|]. split.
  - intros F R Acc. unfold run.
    rewrite (MailSend_reaching_rcpt srv msg body F R).
    rewrite (MailSend_rcpts_all_accepted srv to 0) by exact Acc.
    cbn [fst snd]. split.
    + rewrite !rcpts_of_app, prelude_no_rcpt, rcpts_of_map, MailSend_data_no_rcpt.
      simpl. rewrite ?app_nil_r. reflexivity.
    + destruct (MailSend_data_begins srv body) as (calls & E). rewrite E.
      apply in_or_app. right. apply in_or_app. left.
      apply in_or_app. right. left. reflexivity.
  - intros n err F R L Ref Acc.
    assert (E : run = (Some err,
                       prelude srv msg ++ map CRcpt (firstn (S n) to) ++ [CClose])%list).
    { unfold run. rewrite (MailSend_reaching_rcpt srv msg body F R).
      rewrite (MailSend_rcpts_first_refused srv to 0 n err) by assumption.
      reflexivity. }
    rewrite E. cbn [fst snd]. split; [reflexivity|]. split; [reflexivity|].
    split; [|split].
    + rewrite !rcpts_of_app, prelude_no_rcpt, rcpts_of_map.
      simpl. rewrite ?app_nil_r. reflexivity.
    + intros I. apply in_app_or in I. destruct I as [I|I].
      * exact (prelude_no_data srv msg I).
      * apply in_app_or in I. destruct I as [I|[I|[]]]; [|discriminate I].
        apply In_map_CRcpt in I. discriminate I.
    + rewrite app_assoc. apply last_last.
Qed.

Lemma MailSend_rcpt_in_order_first_refusal_aborts_witness :
  MailSend Sample.refuses_second_rcpt Sample.msg Sample.body
  = (Some (Errno 550),
     [CDial "mail.x.com:25"; CHello "mail.x.com"; CAuth; CMail "a@x.com";
      CRcpt "b@x.com"; CRcpt "c@x.com"; CClose])
  /\ (let to := Split (To Sample.msg) comma in
      let run := MailSend Sample.refuses_second_rcpt Sample.msg Sample.body in
      fst run = Some (Errno 550)
      /\ snd run
         = (prelude Sample.refuses_second_rcpt Sample.msg
            ++ map CRcpt (firstn 2 to) ++ [CClose])%list
      /\ rcpts_of (snd run) = firstn 2 to
      /\ ~ In CData (snd run)
      /\ last (snd run) CData = CClose).
Proof.
  split; [reflexivity|].
  refine (proj2 (proj2 (proj2
            (MailSend_rcpt_in_order_first_refusal_aborts
               Sample.refuses_second_rcpt Sample.msg Sample.body)))
          1 (Errno 550) _ _ _ _ _).
  - discriminate.
  - unfold reaches_rcpt. simpl. repeat split.
  - simpl. lia.
  - reflexivity.
  - intros j Lj. assert (j = 0) by lia. subst j. reflexivity.
Defined.

(** ** MailSend: QUIT and the release of the connection *)

Lemma quit_andThen (c : Call) (answer : option error) (k : option error * list Call) :
  c <> CQuit -> In CQuit (snd (andThen c answer k)) ->
  answer = None /\ In CQuit (snd k).
Proof.
  intros N. destruct answer as [err|]; cbn [andThen fst snd]; intros [I|I].
  - congruence.
  - destruct I.
  - congruence.
  - split; [reflexivity | exact I].
Qed.

Lemma quit_rcpts (srv : Server) (to : list string) (i : nat)
    (k : option error * list Call) :
  In CQuit (snd (MailSend_rcpts srv i to k)) ->
  (forall j, j < List.length to -> on_Rcpt srv (i + j) = None) /\ In CQuit (snd k).
Proof.
  revert i. induction to as [|a to IH]; intros i I; cbn [MailSend_rcpts] in I.
  - split; [simpl; intros j L; lia | exact I].
  - apply quit_andThen in I; [|discriminate]. destruct I as [A I].
    apply IH in I. destruct I as [Acc I]. split; [|exact I].
    intros [|j] L.
    + rewrite Nat.add_0_r. exact A.
    + replace (i + S j) with (S i + j) by lia. apply Acc. simpl in L. lia.
Qed.

Lemma quit_or_error_andThen (c : Call) (answer : option error)
    (k : option error * list Call) :
  quit_or_error k -> quit_or_error (andThen c answer k).
Proof.
  intros Q. destruct answer as [err|]; unfold quit_or_error; cbn [andThen fst snd].
  - right. exists err. reflexivity.
  - destruct Q as [I|E]; [left; right; exact I | right; exact E].
Qed.

Lemma quit_or_error_rcpts (srv : Server) (to : list string) (i : nat)
    (k : option error * list Call) :
  quit_or_error k -> quit_or_error (MailSend_rcpts srv i to k).
Proof.
  intros Q. revert i. induction to as [|a to IH]; intros i; cbn [MailSend_rcpts].
  - exact Q.
  - apply quit_or_error_andThen, IH.
Qed.

Lemma quit_or_error_session (srv : Server) (msg : MailConfig) (body : Body)
    (to : list string) :
  quit_or_error (MailSend_session srv msg body to).
Proof.
  unfold MailSend_session. apply quit_or_error_andThen.
  assert (K : quit_or_error
                (andThen CAuth (on_Auth srv)
                   (andThen (CMail (From msg)) (on_Mail srv)
                      (MailSend_rcpts srv 0 to (MailSend_data srv body))))).
  { do 2 apply quit_or_error_andThen. apply quit_or_error_rcpts.
    apply MailSend_data_error_or_quit. }
  destruct (offers_STARTTLS srv); [apply quit_or_error_andThen|]; exact K.
Qed.

Lemma quit_session (srv : Server) (msg : MailConfig) (body : Body) (to : list string) :
  In CQuit (snd (MailSend_session srv msg body to)) ->
  steps_succeed srv (List.length to).
Proof.
  unfold MailSend_session. intros I.
  apply quit_andThen in I; [|discriminate]. destruct I as [Hh I].
  assert (K : (offers_STARTTLS srv = true -> on_StartTLS srv = None)
              /\ In CQuit
                   (snd (andThen CAuth (on_Auth srv)
                           (andThen (CMail (From msg)) (on_Mail srv)
                              (MailSend_rcpts srv 0 to (MailSend_data srv body)))))).
  { destruct (offers_STARTTLS srv).
    - apply quit_andThen in I; [|discriminate]. destruct I as [Ht I].
      split; [intros _; exact Ht | exact I].
    - split; [discriminate | exact I]. }
  destruct K as [Ht K].
  apply quit_andThen in K; [|discriminate]. destruct K as [Ha K].
  apply quit_andThen in K; [|discriminate]. destruct K as [Hm K].
  apply quit_rcpts in K. destruct K as [Acc K].
  apply MailSend_data_quit in K. destruct K as (Hd & Hc & Hx).
  unfold steps_succeed. repeat split; assumption.
Qed.

(** The session is the walk through its steps. *)
Lemma run_steps_cons (c : Call) (answer : option error)
    (steps : list (Call * option error)) :
  run_steps ((c, answer) :: steps) = andThen c answer (run_steps steps).
Proof. reflexivity. Qed.

Lemma MailSend_rcpts_steps (srv : Server) (to : list string) (i : nat)
    (steps : list (Call * option error)) :
  MailSend_rcpts srv i to (run_steps steps)
  = run_steps (rcpt_steps srv i to ++ steps).
Proof.
  revert i. induction to as [|addr to IH]; intros i; [reflexivity|].
  cbn [MailSend_rcpts rcpt_steps app]. rewrite run_steps_cons, IH. reflexivity.
Qed.

Lemma MailSend_data_steps (srv : Server) (body : Body) :
  MailSend_data srv body
  = run_steps
      ((CData, on_Data srv)
       :: (match rewound body with Some _ => [(CSeek, None)] | None => [] end)
       ++ [(CCopy (payload_of body), on_Copy srv); (CDataClose, on_DataClose srv);
           (CQuit, on_Quit srv)]).
Proof.
  unfold MailSend_data, payload_of.
  destruct (on_Data srv), (rewound body), (on_Copy srv), (on_DataClose srv),
    (on_Quit srv); reflexivity.
Qed.

Lemma MailSend_session_steps (srv : Server) (msg : MailConfig) (body : Body) :
  MailSend_session srv msg body (Split (To msg) comma)
  = run_steps (session_steps srv msg body).
Proof.
  unfold MailSend_session, session_steps. cbv zeta.
  rewrite MailSend_data_steps, MailSend_rcpts_steps.
  destruct (offers_STARTTLS srv); reflexivity.
Qed.

(** A walk either finds every step accepted, or ends at the first that
    is refused, with the error of that step. *)
Lemma run_steps_cases (steps : list (Call * option error)) :
  (Forall (fun step => snd step = None) steps
   /\ run_steps steps = (None, map fst steps))
  \/ (exists accepted c err later,
        steps = (accepted ++ (c, Some err) :: later)%list
        /\ Forall (fun step => snd step = None) accepted
        /\ run_steps steps = (Some err, map fst accepted ++ [c])%list).
Proof.
  induction steps as [|[c [err|]] steps IH].
  - left. split; [constructor | reflexivity].
  - right. exists [], c, err, steps. repeat split. constructor.
  - rewrite run_steps_cons.
    destruct IH as [[A E]|(accepted & c' & err & later & S & A & E)]; rewrite E.
    + left. split; [constructor; [reflexivity | exact A] | reflexivity].
    + right. exists ((c, None) :: accepted), c', err, later. subst steps.
      repeat split. constructor; [reflexivity | exact A].
Qed.

(** [Auth] is called exactly when the greeting, and the upgrade when the
    server offers it, were accepted. *)
Lemma auth_called (srv : Server) (msg : MailConfig) (body : Body) (to : list string) :
  In CAuth (snd (MailSend_session srv msg body to))
  <-> on_Hello srv = None /\ (offers_STARTTLS srv = true -> on_StartTLS srv = None).
Proof.
  unfold MailSend_session.
  set (k := MailSend_rcpts srv 0 to (MailSend_data srv body)).
  assert (A : In CAuth (snd (andThen CAuth (on_Auth srv)
                               (andThen (CMail (From msg)) (on_Mail srv) k))))
    by (destruct (on_Auth srv); left; reflexivity).
  destruct (on_Hello srv) as [e|]; cbn [andThen fst snd].
  - split; [intros [I|[]]; discriminate I | intros [I _]; discriminate I].
  - destruct (offers_STARTTLS srv).
    + destruct (on_StartTLS srv) as [e|]; cbn [andThen fst snd].
      * split; [intros [I|[I|[]]]; discriminate I|].
        intros [_ I]. specialize (I eq_refl). discriminate I.
      * split; [intros _; split; reflexivity | intros _; right; right; exact A].
    + split; [intros _; split; [reflexivity | discriminate] | intros _; right; exact A].
Qed.

(** The run that shows QUIT is not always attempted: the server refuses
    the greeting, [MailSend] returns that error, and the connection is
    released without a QUIT, by [MailSend] or on the wire. *)
Lemma MailSend_no_quit_after_refused_hello :
  MailSend Sample.refuses_hello Sample.msg Sample.body
  = (Some (Errno 554), [CDial "mail.x.com:25"; CHello "mail.x.com"; CClose])
  /\ (quit_always_attempted Sample.refuses_hello Sample.msg Sample.body -> False)
  /\ (forall auth_gave_up,
        quit_on_wire auth_gave_up Sample.refuses_hello
          (snd (MailSend Sample.refuses_hello Sample.msg Sample.body))
        -> False).
Proof.
  split; [reflexivity|]. split.
  - intros Q. destruct Q as [I _]; [discriminate | reflexivity |].
    simpl in I. repeat (destruct I as [I|I]; [discriminate I|]). destruct I.
  - intros g [I|(_ & I & _)]; simpl in I;
      repeat (destruct I as [I|I]; [discriminate I|]); destruct I.
Qed.

(** C7, as the code has it.  Once the dial has succeeded, the release of
    the connection is the last call of the run on every path.
    [MailSend] calls [Quit] when every step before it was accepted, and
    then the answer to it is the result of [MailSend] and the release
    follows it; it calls [Quit] in no other run, and a run without that
    call returns an error.  The error that a run returns is the answer to
    the first step that was refused: the steps before it were accepted,
    that step is the last call before the release, and no later step is
    attempted.  On the wire, a QUIT command goes out in the runs where
    every step was accepted, and besides them only in the runs where
    [Auth] fails and net/smtp sends QUIT by itself as it gives the
    authentication up. *)
Theorem MailSend_releases_always_quits_on_success
    (srv : Server) (msg : MailConfig) (body : Body) :
  From msg <> EmptyString -> on_Dial srv = None ->
  let n := List.length (Split (To msg) comma) in
  let run := MailSend srv msg body in
  last (snd run) CQuit = CClose
  /\ (steps_succeed srv n ->
      fst run = on_Quit srv
      /\ exists calls, snd run = (calls ++ [CQuit; CClose])%list)
  /\ (In CQuit (snd run) -> steps_succeed srv n)
  /\ (~ In CQuit (snd run) -> exists err, fst run = Some err)
  /\ (forall err, fst run = Some err ->
      exists accepted c later,
        session_steps srv msg body = (accepted ++ (c, Some err) :: later)%list
        /\ Forall (fun step => snd step = None) accepted
        /\ snd run = (CDial (Host msg) :: map fst accepted ++ [c; CClose])%list)
  /\ (forall auth_gave_up,
        quit_on_wire auth_gave_up srv (snd run)
        <-> steps_succeed srv n \/ (auth_gave_up = true /\ auth_refused srv)).
Proof.
  intros F D n run.
  assert (E : run = (fst (MailSend_session srv msg body (Split (To msg) comma)),
                     (CDial (Host msg)
                      :: snd (MailSend_session srv msg body (Split (To msg) comma)))
                     ++ [CClose])%list).
  { unfold run, MailSend. apply nonempty_true in F. rewrite F. simpl.
    pose proof (Split_length_pos (To msg) comma) as L.
    destruct (Nat.eqb_spec (List.length (Split (To msg) comma)) 0) as [Z|_]; [lia|].
    rewrite D. reflexivity. }
  assert (C2 : steps_succeed srv n ->
               fst run = on_Quit srv
               /\ exists calls, snd run = (calls ++ [CQuit; CClose])%list).
  { intros (Hh & Ht & Ha & Hm & Acc & Hd & Hc & Hx).
    assert (R : reaches_rcpt srv) by (unfold reaches_rcpt; auto).
    unfold run. rewrite (MailSend_reaching_rcpt srv msg body F R).
    rewrite (MailSend_rcpts_all_accepted srv (Split (To msg) comma) 0) by exact Acc.
    destruct (MailSend_data_accepted srv body Hd Hc Hx) as (calls & Ed).
    rewrite Ed. cbn [fst snd]. split; [reflexivity|].
    exists (prelude srv msg ++ map CRcpt (Split (To msg) comma) ++ calls)%list.
    rewrite <- !app_assoc. reflexivity. }
  assert (C3 : In CQuit (snd run) -> steps_succeed srv n).
  { rewrite E. cbn [snd]. intros I.
    apply in_app_or in I. destruct I as [[I|I]|[I|[]]]; try discriminate I.
    apply quit_session in I. exact I. }
  split; [rewrite E; apply last_last|]. split; [exact C2|]. split; [exact C3|].
  split; [|split].
  - rewrite E. cbn [fst snd]. intros N.
    destruct (quit_or_error_session srv msg body (Split (To msg) comma)) as [I|Err].
    + exfalso. apply N. apply in_or_app. left. right. exact I.
    + exact Err.
  - rewrite E, MailSend_session_steps. cbn [fst snd]. intros err R.
    destruct (run_steps_cases (session_steps srv msg body))
      as [[_ W]|(accepted & c & err' & later & S & A & W)];
      rewrite W in *; cbn [fst snd] in *; [discriminate R|].
    inversion R. subst err'. exists accepted, c, later.
    split; [exact S|]. split; [exact A|].
    cbn [app]. rewrite <- app_assoc. reflexivity.
  - intros g. unfold quit_on_wire, auth_refused. split.
    + intros [I|(G & I & A)]; [left; exact (C3 I)|].
      right. split; [exact G|]. rewrite E in I. cbn [snd] in I.
      apply in_app_or in I. destruct I as [[I|I]|[I|[]]]; try discriminate I.
      apply auth_called in I. destruct I as [Hh Ht]. repeat split; assumption.
    + intros [S|(G & Hh & Ht & A)].
      * left. destruct (C2 S) as [_ (calls & Q)]. rewrite Q.
        apply in_or_app. right. left. reflexivity.
      * right. split; [exact G|]. split; [|exact A].
        rewrite E. cbn [snd]. apply in_or_app. left. right.
        apply auth_called. split; assumption.
Qed.

Lemma MailSend_releases_always_quits_on_success_witness :
  From Sample.msg <> EmptyString /\ on_Dial Sample.accepting = None
  /\ MailSend Sample.accepting Sample.msg Sample.body
     = (None,
        [CDial "mail.x.com:25"; CHello "mail.x.com"; CAuth; CMail "a@x.com";
         CRcpt "b@x.com"; CRcpt "c@x.com"; CData; CCopy "payload"; CDataClose;
         CQuit; CClose])
  /\ (let n := List.length (Split (To Sample.msg) comma) in
      let run := MailSend Sample.accepting Sample.msg Sample.body in
      last (snd run) CQuit = CClose
      /\ (steps_succeed Sample.accepting n ->
          fst run = on_Quit Sample.accepting
          /\ exists calls, snd run = (calls ++ [CQuit; CClose])%list)
      /\ (In CQuit (snd run) -> steps_succeed Sample.accepting n)
      /\ (~ In CQuit (snd run) -> exists err, fst run = Some err)
      /\ (forall err, fst run = Some err ->
          exists accepted c later,
            session_steps Sample.accepting Sample.msg Sample.body
            = (accepted ++ (c, Some err) :: later)%list
            /\ Forall (fun step => snd step = None) accepted
            /\ snd run
               = (CDial (Host Sample.msg) :: map fst accepted ++ [c; CClose])%list)
      /\ (forall auth_gave_up,
            quit_on_wire auth_gave_up Sample.accepting (snd run)
            <-> steps_succeed Sample.accepting n
                \/ (auth_gave_up = true /\ auth_refused Sample.accepting))).
Proof.
  split; [discriminate|]. split; [reflexivity|]. split; [reflexivity|].
  apply (MailSend_releases_always_quits_on_success
           Sample.accepting Sample.msg Sample.body).
  - discriminate.
  - reflexivity.
Defined.

(** The same at a run whose third step is refused: the server takes the
    greeting and refuses the second recipient.  The result is the answer
    to that RCPT, and the run ends there with the release. *)
Lemma MailSend_returns_error_of_refused_step :
  exists accepted later,
    session_steps Sample.refuses_second_rcpt Sample.msg Sample.body
    = (accepted ++ (CRcpt "c@x.com", Some (Errno 550)) :: later)%list
    /\ Forall (fun step => snd step = None) accepted
    /\ MailSend Sample.refuses_second_rcpt Sample.msg Sample.body
       = (Some (Errno 550),
          CDial (Host Sample.msg) :: map fst accepted ++ [CRcpt "c@x.com"; CClose])%list.
Proof.
  exists [(CHello "mail.x.com", None); (CAuth, None); (CMail "a@x.com", None);
          (CRcpt "b@x.com", None)],
         [(CData, None); (CCopy "payload", None); (CDataClose, None); (CQuit, None)].
  split; [reflexivity|]. split; [repeat constructor | reflexivity].
Qed.

(** ** MailConfig.Writer on a buffer *)

(** A [bytes.Buffer] takes every write, and what a step appends to it
    does not depend on what the buffer holds: running a step on a buffer
    that holds [c] before is running it on the buffer without [c] and
    putting [c] in front. *)
Lemma Write_pre (c : string) (b : Buffer) (p : string) :
  Write (pre c b) p = (pre c (fst (Write b p)), None).
Proof.
  unfold Write, Buffer_Writer, pre. simpl. now rewrite append_assoc.
Qed.

Lemma Write_Buffer (b : Buffer) (p : string) :
  Write b p = (mkBuffer (buf_bytes b ++ p), None).
Proof. reflexivity. Qed.

Lemma WriteString_pre (c : string) (b : Buffer) (s : string) :
  WriteString_ (pre c b) s = pre c (WriteString_ b s).
Proof. unfold WriteString_. now rewrite Write_pre. Qed.

Lemma pre_empty (c : string) : pre c (mkBuffer EmptyString) = mkBuffer c.
Proof. unfold pre. simpl. now rewrite append_nil_r. Qed.

Lemma part_Write_pre (c : string) (b : Buffer) (p : multipart.part) (d : string) :
  Write (pre c b, p) d
  = let '((s, p'), err) := Write (b, p) d in ((pre c s, p'), err).
Proof.
  unfold Write, multipart.part_Writer, Buffer_Writer, pre.
  destruct (multipart.closed p); [reflexivity|].
  simpl. now rewrite append_assoc.
Qed.

Lemma headerToBytes_vals_pre (lib : GoLib) (c : string) (field : string)
    (vals : list string) (b : Buffer) :
  headerToBytes_vals lib (pre c b) field vals
  = pre c (headerToBytes_vals lib b field vals).
Proof.
  revert b. induction vals as [|v vals IH]; intros b; [reflexivity|].
  cbn [headerToBytes_vals].
  rewrite !WriteString_pre.
  destruct (String.eqb field "Content-Type" || String.eqb field "Content-Disposition")%bool;
    rewrite Write_pre; cbn [fst]; rewrite WriteString_pre; apply IH.
Qed.

Lemma headerToBytes_fields_pre (lib : GoLib) (c : string) (entries : MIMEHeader)
    (b : Buffer) :
  headerToBytes_fields lib (pre c b) entries
  = pre c (headerToBytes_fields lib b entries).
Proof.
  revert b. induction entries as [|[field vals] entries IH]; intros b; [reflexivity|].
  cbn [headerToBytes_fields]. rewrite headerToBytes_vals_pre. apply IH.
Qed.

Lemma headerToBytes_pre (lib : GoLib) (world : World) (c : string)
    (header : MIMEHeader) (b : Buffer) :
  headerToBytes lib world (pre c b) header = pre c (headerToBytes lib world b header).
Proof. apply headerToBytes_fields_pre. Qed.

(** On a buffer [headerToBytes] appends the lines of the entries in the
    order of the visit. *)
Lemma headerToBytes_vals_Buffer (lib : GoLib) (field : string) (vals : list string)
    (b : Buffer) :
  headerToBytes_vals lib b field vals
  = mkBuffer (buf_bytes b ++ entry_lines lib field vals).
Proof.
  revert b. induction vals as [|v vals IH]; intros [c]; cbn [headerToBytes_vals entry_lines].
  - simpl. now rewrite append_nil_r.
  - unfold WriteString_. rewrite !Write_Buffer. cbn [fst buf_bytes].
    destruct (String.eqb field "Content-Type" || String.eqb field "Content-Disposition")%bool;
      rewrite ?Write_Buffer; cbn [fst buf_bytes]; rewrite IH; cbn [buf_bytes];
      rewrite !append_assoc; reflexivity.
Qed.

Lemma headerToBytes_fields_Buffer (lib : GoLib) (entries : MIMEHeader) (b : Buffer) :
  headerToBytes_fields lib b entries
  = mkBuffer (buf_bytes b ++ concat_lines (map (header_line lib) entries)).
Proof.
  revert b. induction entries as [|[field vals] entries IH]; intros [c];
    cbn [headerToBytes_fields map concat_lines fold_right].
  - simpl. now rewrite append_nil_r.
  - rewrite headerToBytes_vals_Buffer, IH. cbn [buf_bytes].
    unfold header_line at 1. cbn [fst snd]. now rewrite append_assoc.
Qed.

Lemma qp_flush_pre (c : string) (lines : list string) (b : Buffer) :
  qp_flush (pre c b) lines
  = (pre c (fst (qp_flush b lines)), snd (qp_flush b lines)).
Proof.
  revert b. induction lines as [|line lines IH]; intros b; [reflexivity|].
  cbn [qp_flush]. rewrite Write_pre, Write_Buffer. cbn [fst]. apply IH.
Qed.

Lemma CreatePart_pre (c : string) (w : multipart.Writer) (header : MIMEHeader)
    (b : Buffer) :
  multipart.CreatePart w (pre c b) header
  = let '(w', s, r) := multipart.CreatePart w b header in (w', pre c s, r).
Proof.
  unfold multipart.CreatePart.
  destruct (multipart.close_lastpart w) as [w' [err|]]; [reflexivity|].
  rewrite Write_pre, Write_Buffer. reflexivity.
Qed.

Lemma Close_pre (c : string) (w : multipart.Writer) (b : Buffer) :
  multipart.Close w (pre c b)
  = let '(w', s, r) := multipart.Close w b in (w', pre c s, r).
Proof.
  unfold multipart.Close.
  destruct (multipart.close_lastpart w) as [w' [err|]]; [reflexivity|].
  rewrite Write_pre, Write_Buffer. reflexivity.
Qed.

Lemma base64Wrap_loop_pre (c : string) (r : Reader) (bb buffer : string)
    (b : Buffer) (p : multipart.part) :
  base64Wrap_loop r bb buffer (pre c b, p)
  = let '((s, p'), err) := base64Wrap_loop r bb buffer (b, p) in ((pre c s, p'), err).
Proof.
  revert bb buffer b p. induction r as [|[chunk err] r IH]; intros bb buffer b p.
  - reflexivity.
  - rewrite !base64Wrap_loop_cons. cbv zeta.
    destruct err as [e|]; [destruct (is_EOF e); reflexivity|].
    destruct (Nat.eqb (snd (read_into bb chunk)) maxRaw).
    + rewrite part_Write_pre.
      destruct (Write (b, p) _) as [[s p'] e']. cbn [fst]. apply IH.
    + rewrite part_Write_pre.
      destruct (Write (b, p) _) as [[s p'] e']. cbn [fst]. apply IH.
Qed.

Lemma attach_pre (lib : GoLib) (world : World) (c : string) (w : multipart.Writer)
    (filename : string) (b : Buffer) :
  attach lib world w (pre c b) filename
  = let '(w', s, err) := attach lib world w b filename in (w', pre c s, err).
Proof.
  unfold attach.
  destruct (os_Open world filename) as [err|File]; [reflexivity|].
  rewrite CreatePart_pre.
  destruct (multipart.CreatePart w b _) as [[w' s] [err|mw]]; [reflexivity|].
  unfold base64Wrap. rewrite base64Wrap_loop_pre.
  destruct (base64Wrap_loop _ _ _ (s, mw)) as [[s' mw'] err]. reflexivity.
Qed.

Lemma Writer_attachments_pre (lib : GoLib) (world : World) (c : string)
    (list : list string) (w : multipart.Writer) (b : Buffer) :
  Writer_attachments lib world w (pre c b) list
  = (pre c (fst (Writer_attachments lib world w b list)),
     snd (Writer_attachments lib world w b list)).
Proof.
  revert w b. induction list as [|path rest IH]; intros w b; [reflexivity|].
  cbn [Writer_attachments]. rewrite attach_pre.
  destruct (attach lib world w b path) as [[w' s] [err|]].
  - rewrite Close_pre. destruct (multipart.Close w' s) as [[w'' s'] r]. reflexivity.
  - apply IH.
Qed.

Lemma Writer_body_pre (lib : GoLib) (world : World) (c : string) (e : MailConfig)
    (header : MIMEHeader) (b : Buffer) :
  Writer_body lib world e (pre c b) header
  = (pre c (fst (Writer_body lib world e b header)),
     snd (Writer_body lib world e b header)).
Proof.
  unfold Writer_body. rewrite headerToBytes_pre.
  set (b1 := headerToBytes lib world b _).
  destruct (nonempty (Content e)).
  - rewrite CreatePart_pre.
    destruct (multipart.CreatePart _ b1 _) as [[w' s] [err|mw]]; [reflexivity|].
    rewrite qp_flush_pre.
    destruct (qp_flush s _) as [s1 [err|]]; [reflexivity|]. cbn [fst snd].
    rewrite qp_flush_pre.
    destruct (qp_flush s1 _) as [s2 [err|]]; [reflexivity|]. cbn [fst snd].
    rewrite Close_pre. destruct (multipart.Close w' s2) as [[w'' s3] r]. reflexivity.
  - rewrite CreatePart_pre.
    destruct (multipart.CreatePart _ b1 _) as [[w' s] [err|mw]]; [reflexivity|].
    destruct (os_Open world (ContentPath e)) as [err|File]; [reflexivity|].
    rewrite qp_flush_pre.
    destruct (qp_flush s _) as [s1 [err|]]; [reflexivity|]. cbn [fst snd].
    destruct (f_err File) as [err|]; [reflexivity|].
    rewrite qp_flush_pre.
    destruct (qp_flush s1 _) as [s2 [err|]]; [reflexivity|]. cbn [fst snd].
    rewrite Close_pre. destruct (multipart.Close w' s2) as [[w'' s3] r]. reflexivity.
Qed.

Lemma Fprintf_pre (c : string) (b : Buffer) (s : string) :
  Fprintf_ (pre c b) s = pre c (Fprintf_ b s).
Proof. unfold Fprintf_. now rewrite Write_pre. Qed.

Lemma Writer_after_headers_pre (lib : GoLib) (world : World) (c : string)
    (e : MailConfig) (b : Buffer) :
  Writer_after_headers lib world e (pre c b)
  = (pre c (fst (Writer_after_headers lib world e b)),
     snd (Writer_after_headers lib world e b)).
Proof.
  unfold Writer_after_headers. cbv zeta.
  rewrite WriteString_pre, Fprintf_pre.
  set (b1 := Fprintf_ (WriteString_ b CRLF) _).
  destruct (nonempty (Content e) || nonempty (ContentPath e))%bool.
  - rewrite Writer_body_pre.
    destruct (Writer_body lib world e b1 []) as [s [err|]]; [reflexivity|]. cbn [fst snd].
    destruct (nonempty (Attachments e)); [apply Writer_attachments_pre | reflexivity].
  - destruct (nonempty (Attachments e)); [apply Writer_attachments_pre | reflexivity].
Qed.

(** [Writer] is the first [headerToBytes] and the rest. *)
Lemma Writer_split {S : Type} `{io_Writer S} (lib : GoLib) (world : World)
    (e : MailConfig) (datawriter : S) :
  Writer lib world e datawriter
  = Writer_after_headers lib world e
      (headerToBytes lib world datawriter (top_headers e (boundary_outer world))).
Proof. reflexivity. Qed.

(** A visit of a map with one entry has one order. *)
Lemma one_entry_one_order (order : MIMEHeader -> MIMEHeader)
    (entry : string * list string) :
  (forall h, Permutation (order h) h) -> order [entry] = [entry].
Proof.
  intros P. apply Permutation_length_1_inv. apply Permutation_sym, P.
Qed.

Lemma Set_nil (key value : string) :
  Set_ [] key value = [(CanonicalMIMEHeaderKey key, [value])].
Proof. reflexivity. Qed.

(** What follows the top header does not depend on the order of the
    visits: the only other header that [headerToBytes] gets has one
    entry. *)
Lemma Writer_after_headers_any_order {S : Type} `{io_Writer S} (lib : GoLib)
    (base : World) (order1 order2 : MIMEHeader -> MIMEHeader) (e : MailConfig)
    (datawriter : S) :
  (forall h, Permutation (order1 h) h) -> (forall h, Permutation (order2 h) h) ->
  Writer_after_headers lib (with_order base order1) e datawriter
  = Writer_after_headers lib (with_order base order2) e datawriter.
Proof.
  intros P1 P2. unfold Writer_after_headers. cbv zeta.
  assert (B : forall d,
             Writer_body lib (with_order base order1) e d []
             = Writer_body lib (with_order base order2) e d []).
  { intros d. unfold Writer_body, headerToBytes. cbv zeta.
    cbn [map_order with_order boundary_inner os_Open].
    rewrite !Set_nil.
    rewrite (one_entry_one_order order1 _ P1), (one_entry_one_order order2 _ P2).
    reflexivity. }
  rewrite B. reflexivity.
Qed.

(** ** Payloads that differ in their boundaries *)

Section Alike.

Variables o1 i1 o2 i2 : string.

Local Abbreviation R := (alike o1 i1 o2 i2).

Lemma alike_refl (s : string) : R s s.
Proof. induction s as [|c s IH]; constructor; exact IH. Qed.

Lemma alike_app (a b a' b' : string) : R a b -> R a' b' -> R (a ++ a') (b ++ b').
Proof.
  intros A A'. induction A as [|c s t _ IH|s t _ IH|s t _ IH].
  - exact A'.
  - cbn [String.append]. apply alike_byte. exact IH.
  - rewrite !append_assoc. apply alike_outer. exact IH.
  - rewrite !append_assoc. apply alike_inner. exact IH.
Qed.

Lemma alike_o : R o1 o2.
Proof.
  pose proof (alike_outer o1 i1 o2 i2 _ _ (alike_end o1 i1 o2 i2)) as A.
  now rewrite !append_nil_r in A.
Qed.

Lemma alike_i : R i1 i2.
Proof.
  pose proof (alike_inner o1 i1 o2 i2 _ _ (alike_end o1 i1 o2 i2)) as A.
  now rewrite !append_nil_r in A.
Qed.

(** With the same tokens on both sides the strings are equal. *)
Lemma alike_same_tokens (a b : string) : o1 = o2 -> i1 = i2 -> R a b -> a = b.
Proof.
  intros Eo Ei A. induction A as [|c s t _ IH|s t _ IH|s t _ IH]; congruence.
Qed.

Lemma Write_alike (b1 b2 : Buffer) (p1 p2 : string) :
  R (buf_bytes b1) (buf_bytes b2) -> R p1 p2 ->
  R (buf_bytes (fst (Write b1 p1))) (buf_bytes (fst (Write b2 p2))).
Proof. intros B P. rewrite !Write_Buffer. cbn [fst buf_bytes]. now apply alike_app. Qed.

Lemma qp_flush_alike (lines : list string) (b1 b2 : Buffer) :
  R (buf_bytes b1) (buf_bytes b2) ->
  R (buf_bytes (fst (qp_flush b1 lines))) (buf_bytes (fst (qp_flush b2 lines)))
  /\ snd (qp_flush b1 lines) = None /\ snd (qp_flush b2 lines) = None.
Proof.
  revert b1 b2. induction lines as [|line lines IH]; intros b1 b2 B;
    [repeat split; exact B|].
  cbn [qp_flush]. rewrite !Write_Buffer. apply IH. cbn [buf_bytes].
  apply alike_app; [exact B | apply alike_refl].
Qed.

Lemma CreatePart_alike (w1 w2 : multipart.Writer) (header : MIMEHeader)
    (b1 b2 : Buffer) :
  matching o1 i1 o2 i2 w1 w2 -> R (buf_bytes b1) (buf_bytes b2) ->
  matching o1 i1 o2 i2 (fst (fst (multipart.CreatePart w1 b1 header)))
                       (fst (fst (multipart.CreatePart w2 b2 header)))
  /\ R (buf_bytes (snd (fst (multipart.CreatePart w1 b1 header))))
       (buf_bytes (snd (fst (multipart.CreatePart w2 b2 header))))
  /\ snd (multipart.CreatePart w1 b1 header) = snd (multipart.CreatePart w2 b2 header).
Proof.
  intros [L Bd] B. unfold multipart.CreatePart, multipart.close_lastpart.
  rewrite <- L. destruct (multipart.lastpart w1) as [p|] eqn:L1.
  - destruct (multipart.we p) as [err|]; cbn [fst snd].
    + split; [split; [reflexivity | exact Bd]|]. split; [exact B | reflexivity].
    + rewrite !Write_Buffer. cbn [fst snd buf_bytes multipart.lastpart
                                   multipart.set_lastpart multipart.Boundary].
      split; [split; [reflexivity | exact Bd]|]. split; [|reflexivity].
      apply alike_app; [exact B|].
      apply alike_app; [|apply alike_refl].
      apply (alike_app CRLF CRLF); [apply alike_refl|].
      apply (alike_app "--" "--"); [apply alike_refl|].
      apply alike_app; [exact Bd | apply alike_refl].
  - rewrite !Write_Buffer. cbn [fst snd buf_bytes multipart.lastpart
                                 multipart.set_lastpart multipart.Boundary].
    rewrite <- L, L1.
    split; [split; [reflexivity | exact Bd]|]. split; [|reflexivity].
    apply alike_app; [exact B|].
    apply alike_app; [|apply alike_refl].
    apply (alike_app "--" "--"); [apply alike_refl|].
    apply alike_app; [exact Bd | apply alike_refl].
Qed.

Lemma Close_alike (w1 w2 : multipart.Writer) (b1 b2 : Buffer) :
  matching o1 i1 o2 i2 w1 w2 -> R (buf_bytes b1) (buf_bytes b2) ->
  R (buf_bytes (snd (fst (multipart.Close w1 b1))))
    (buf_bytes (snd (fst (multipart.Close w2 b2))))
  /\ snd (multipart.Close w1 b1) = snd (multipart.Close w2 b2).
Proof.
  intros [L Bd] B. unfold multipart.Close, multipart.close_lastpart.
  rewrite <- L.
  assert (T : R (CRLF ++ "--" ++ multipart.Boundary w1 ++ "--" ++ CRLF)
                (CRLF ++ "--" ++ multipart.Boundary w2 ++ "--" ++ CRLF)).
  { apply (alike_app CRLF CRLF); [apply alike_refl|].
    apply (alike_app "--" "--"); [apply alike_refl|].
    apply alike_app; [exact Bd | apply alike_refl]. }
  destruct (multipart.lastpart w1) as [p|].
  - destruct (multipart.we p) as [err|]; cbn [fst snd].
    + split; [exact B | reflexivity].
    + rewrite !Write_Buffer. cbn [fst snd buf_bytes multipart.Boundary
                                   multipart.set_lastpart].
      split; [|reflexivity]. apply alike_app; [exact B | exact T].
  - rewrite !Write_Buffer. cbn [fst snd buf_bytes multipart.Boundary
                                 multipart.set_lastpart].
    split; [|reflexivity]. apply alike_app; [exact B | exact T].
Qed.

Lemma base64Wrap_loop_alike (r : Reader) (bb buffer : string) (p : multipart.part)
    (b1 b2 : Buffer) :
  R (buf_bytes b1) (buf_bytes b2) ->
  R (buf_bytes (fst (fst (base64Wrap_loop r bb buffer (b1, p)))))
    (buf_bytes (fst (fst (base64Wrap_loop r bb buffer (b2, p)))))
  /\ snd (fst (base64Wrap_loop r bb buffer (b1, p)))
     = snd (fst (base64Wrap_loop r bb buffer (b2, p)))
  /\ snd (base64Wrap_loop r bb buffer (b1, p))
     = snd (base64Wrap_loop r bb buffer (b2, p)).
Proof.
  revert bb buffer b1 b2. induction r as [|[chunk err] r IH]; intros bb buffer b1 b2 B.
  - repeat split. exact B.
  - rewrite !base64Wrap_loop_cons. cbv zeta.
    destruct err as [e|]; [destruct (is_EOF e); repeat split; exact B|].
    assert (W : forall (b : Buffer) d,
               Write (b, p) d
               = if multipart.closed p then ((b, p), Some ErrPartFinished)
                 else ((mkBuffer (buf_bytes b ++ d), p), None)).
    { intros b d. unfold Write at 1, multipart.part_Writer.
      destruct (multipart.closed p); reflexivity. }
    destruct (Nat.eqb (snd (read_into bb chunk)) maxRaw);
      rewrite !W; destruct (multipart.closed p); cbn [fst];
      apply IH; cbn [buf_bytes]; try exact B;
      (apply alike_app; [exact B | apply alike_refl]).
Qed.

End Alike.

Section TwoRuns.

Variable lib : GoLib.
Variables world1 world2 : World.

Hypothesis same_files : forall path, os_Open world1 path = os_Open world2 path.
Hypothesis order1 : forall h, Permutation (map_order world1 h) h.
Hypothesis order2 : forall h, Permutation (map_order world2 h) h.

Local Abbreviation R :=
  (alike (boundary_outer world1) (boundary_inner world1)
         (boundary_outer world2) (boundary_inner world2)).
Local Abbreviation M :=
  (matching (boundary_outer world1) (boundary_inner world1)
            (boundary_outer world2) (boundary_inner world2)).

Lemma attach_alike (w1 w2 : multipart.Writer) (filename : string) (b1 b2 : Buffer) :
  M w1 w2 -> R (buf_bytes b1) (buf_bytes b2) ->
  M (fst (fst (attach lib world1 w1 b1 filename)))
    (fst (fst (attach lib world2 w2 b2 filename)))
  /\ R (buf_bytes (snd (fst (attach lib world1 w1 b1 filename))))
       (buf_bytes (snd (fst (attach lib world2 w2 b2 filename))))
  /\ snd (attach lib world1 w1 b1 filename) = snd (attach lib world2 w2 b2 filename).
Proof.
  intros Mw B. unfold attach. cbv zeta. rewrite <- same_files.
  destruct (os_Open world1 filename) as [err|File];
    [split; [exact Mw|]; split; [exact B | reflexivity]|].
  set (Header := Set_ _ "Content-Transfer-Encoding" "base64").
  destruct (CreatePart_alike _ _ _ _ w1 w2 Header b1 b2 Mw B) as (Mw' & B' & E).
  destruct (multipart.CreatePart w1 b1 Header) as [[w1' s1] r1].
  destruct (multipart.CreatePart w2 b2 Header) as [[w2' s2] r2].
  cbn [fst snd] in *. subst r2.
  destruct r1 as [err|mw]; [split; [exact Mw'|]; split; [exact B' | reflexivity]|].
  unfold base64Wrap. cbv zeta.
  destruct (base64Wrap_loop_alike _ _ _ _ (file_reader maxRaw File) (make maxRaw)
              (make MaxLineLength ++ CRLF) mw s1 s2 B') as (B'' & Ep & Ee).
  destruct (base64Wrap_loop _ _ _ (s1, mw)) as [[s1' mw1] e1].
  destruct (base64Wrap_loop _ _ _ (s2, mw)) as [[s2' mw2] e2].
  cbn [fst snd] in *. subst mw2 e2.
  split; [|split; [exact B'' | reflexivity]].
  destruct Mw' as [_ Bd]. split; [reflexivity | exact Bd].
Qed.

Lemma Writer_attachments_alike (list : list string) (w1 w2 : multipart.Writer)
    (b1 b2 : Buffer) :
  M w1 w2 -> R (buf_bytes b1) (buf_bytes b2) ->
  R (buf_bytes (fst (Writer_attachments lib world1 w1 b1 list)))
    (buf_bytes (fst (Writer_attachments lib world2 w2 b2 list)))
  /\ snd (Writer_attachments lib world1 w1 b1 list)
     = snd (Writer_attachments lib world2 w2 b2 list).
Proof.
  revert w1 w2 b1 b2. induction list as [|path rest IH]; intros w1 w2 b1 b2 Mw B.
  - split; [exact B | reflexivity].
  - cbn [Writer_attachments].
    destruct (attach_alike w1 w2 path b1 b2 Mw B) as (Mw' & B' & E).
    destruct (attach lib world1 w1 b1 path) as [[w1' s1] r1].
    destruct (attach lib world2 w2 b2 path) as [[w2' s2] r2].
    cbn [fst snd] in *. subst r2.
    destruct r1 as [err|]; [|apply IH; assumption].
    destruct (Close_alike _ _ _ _ w1' w2' s1 s2 Mw' B') as (B'' & _).
    destruct (multipart.Close w1' s1) as [[w1'' s1'] c1].
    destruct (multipart.Close w2' s2) as [[w2'' s2'] c2].
    cbn [fst snd] in *. split; [exact B'' | reflexivity].
Qed.

Lemma Writer_body_alike (e : MailConfig) (b1 b2 : Buffer) :
  R (buf_bytes b1) (buf_bytes b2) ->
  R (buf_bytes (fst (Writer_body lib world1 e b1 [])))
    (buf_bytes (fst (Writer_body lib world2 e b2 [])))
  /\ snd (Writer_body lib world1 e b1 []) = snd (Writer_body lib world2 e b2 []).
Proof.
  intros B. unfold Writer_body, headerToBytes. cbv zeta.
  cbn [multipart.Boundary multipart.NewWriter].
  assert (Over : forall v t q,
             Set_ (Set_ (Set_ [] "Content-Type" v) "Content-Type" t)
                  "Content-Transfer-Encoding" q
             = Set_ (Set_ [] "Content-Type" t) "Content-Transfer-Encoding" q)
    by reflexivity.
  rewrite !Over.
  set (header := Set_ (Set_ [] "Content-Type" _) "Content-Transfer-Encoding" _).
  rewrite !Set_nil.
  rewrite (one_entry_one_order (map_order world1) _ order1),
          (one_entry_one_order (map_order world2) _ order2).
  rewrite !headerToBytes_fields_Buffer.
  assert (B0 : R (buf_bytes b1
                  ++ concat_lines
                       (map (header_line lib)
                          [(CanonicalMIMEHeaderKey "Content-Type",
                            ["multipart/alternative;" ++ CRLF ++ " boundary="
                             ++ boundary_inner world1 ++ CRLF])]))
                 (buf_bytes b2
                  ++ concat_lines
                       (map (header_line lib)
                          [(CanonicalMIMEHeaderKey "Content-Type",
                            ["multipart/alternative;" ++ CRLF ++ " boundary="
                             ++ boundary_inner world2 ++ CRLF])]))).
  { apply alike_app; [exact B|].
    change (CanonicalMIMEHeaderKey "Content-Type") with "Content-Type".
    cbn [map concat_lines fold_right header_line entry_lines fst snd].
    change (String.eqb "Content-Type" "Content-Type" || _)%bool with true. cbv iota.
    rewrite !append_nil_r.
    apply (alike_app _ _ _ _ "Content-Type" "Content-Type"); [apply alike_refl|].
    apply (alike_app _ _ _ _ ": " ": "); [apply alike_refl|].
    apply alike_app; [|apply alike_refl].
    apply (alike_app _ _ _ _ "multipart/alternative;" "multipart/alternative;");
      [apply alike_refl|].
    apply (alike_app _ _ _ _ CRLF CRLF); [apply alike_refl|].
    apply (alike_app _ _ _ _ " boundary=" " boundary="); [apply alike_refl|].
    apply alike_app; [apply alike_i | apply alike_refl]. }
  assert (Mw : M (multipart.NewWriter (boundary_inner world1))
                 (multipart.NewWriter (boundary_inner world2)))
    by (split; [reflexivity | apply alike_i]).
  match goal with
  | |- context [multipart.CreatePart _ ?d1 header] =>
      match goal with
      | |- context [multipart.CreatePart (multipart.NewWriter (boundary_inner world2))
                      ?d2 header] =>
          destruct (CreatePart_alike _ _ _ _ _ _ header d1 d2 Mw B0) as (Mw' & B' & E);
          destruct (multipart.CreatePart (multipart.NewWriter (boundary_inner world1))
                      d1 header) as [[w1' s1] r1];
          destruct (multipart.CreatePart (multipart.NewWriter (boundary_inner world2))
                      d2 header) as [[w2' s2] r2]
      end
  end.
  cbn [fst snd] in *. subst r2.
  assert (Fin : forall lines1 lines2 (s1 s2 : Buffer),
             R (buf_bytes s1) (buf_bytes s2) ->
             R (buf_bytes
                  (fst (match qp_flush s1 lines1 with
                        | (d, Some err) => (d, Some err)
                        | (d, None) =>
                            match qp_flush d lines2 with
                            | (d, Some err) => (d, Some err)
                            | (d, None) =>
                                let '(_, d, err) := multipart.Close w1' d in (d, err)
                            end
                        end)))
               (buf_bytes
                  (fst (match qp_flush s2 lines1 with
                        | (d, Some err) => (d, Some err)
                        | (d, None) =>
                            match qp_flush d lines2 with
                            | (d, Some err) => (d, Some err)
                            | (d, None) =>
                                let '(_, d, err) := multipart.Close w2' d in (d, err)
                            end
                        end)))
             /\ snd (match qp_flush s1 lines1 with
                     | (d, Some err) => (d, Some err)
                     | (d, None) =>
                         match qp_flush d lines2 with
                         | (d, Some err) => (d, Some err)
                         | (d, None) =>
                             let '(_, d, err) := multipart.Close w1' d in (d, err)
                         end
                     end)
                = snd (match qp_flush s2 lines1 with
                       | (d, Some err) => (d, Some err)
                       | (d, None) =>
                           match qp_flush d lines2 with
                           | (d, Some err) => (d, Some err)
                           | (d, None) =>
                               let '(_, d, err) := multipart.Close w2' d in (d, err)
                           end
                       end)).
  { intros lines1 lines2 t1 t2 T.
    destruct (qp_flush_alike _ _ _ _ lines1 t1 t2 T) as (T1 & N1 & N2).
    destruct (qp_flush t1 lines1) as [u1 e1], (qp_flush t2 lines1) as [u2 e2].
    cbn [fst snd] in *. subst e1 e2.
    destruct (qp_flush_alike _ _ _ _ lines2 u1 u2 T1) as (T2 & N1 & N2).
    destruct (qp_flush u1 lines2) as [v1 e1], (qp_flush u2 lines2) as [v2 e2].
    cbn [fst snd] in *. subst e1 e2.
    destruct (Close_alike _ _ _ _ w1' w2' v1 v2 Mw' T2) as (T3 & E3).
    destruct (multipart.Close w1' v1) as [[x1 y1] c1].
    destruct (multipart.Close w2' v2) as [[x2 y2] c2].
    cbn [fst snd] in *. split; assumption. }
  destruct (nonempty (Content e)).
  - destruct r1 as [err|mw]; [split; [exact B' | reflexivity]|].
    apply Fin. exact B'.
  - destruct r1 as [err|mw]; [split; [exact B' | reflexivity]|].
    rewrite <- same_files.
    destruct (os_Open world1 (ContentPath e)) as [err|File];
      [split; [exact B' | reflexivity]|].
    destruct (f_err File) as [err|].
    + destruct (qp_flush_alike _ _ _ _ (qp_Write lib (f_bytes File)) s1 s2 B')
        as (T1 & N1 & N2).
      destruct (qp_flush s1 _) as [u1 e1], (qp_flush s2 _) as [u2 e2].
      cbn [fst snd] in *. subst e1 e2. split; [exact T1 | reflexivity].
    + apply Fin. exact B'.
Qed.

Lemma Writer_after_headers_alike (e : MailConfig) :
  R (buf_bytes (fst (Writer_after_headers lib world1 e (mkBuffer EmptyString))))
    (buf_bytes (fst (Writer_after_headers lib world2 e (mkBuffer EmptyString))))
  /\ snd (Writer_after_headers lib world1 e (mkBuffer EmptyString))
     = snd (Writer_after_headers lib world2 e (mkBuffer EmptyString)).
Proof.
  unfold Writer_after_headers, Fprintf_, WriteString_. cbv zeta.
  rewrite !Write_Buffer. cbn [fst buf_bytes multipart.Boundary multipart.NewWriter].
  set (d1 := mkBuffer _). set (d2 := mkBuffer _).
  assert (B : R (buf_bytes d1) (buf_bytes d2)).
  { unfold d1, d2. cbn [buf_bytes].
    apply alike_app; [apply alike_refl|].
    apply (alike_app _ _ _ _ "--" "--"); [apply alike_refl|].
    apply alike_app; [apply alike_o | apply alike_refl]. }
  assert (Mw : M (multipart.NewWriter (boundary_outer world1))
                 (multipart.NewWriter (boundary_outer world2)))
    by (split; [reflexivity | apply alike_o]).
  assert (A : forall s1 s2 : Buffer,
             R (buf_bytes s1) (buf_bytes s2) ->
             R (buf_bytes
                  (fst (if nonempty (Attachments e)
                        then Writer_attachments lib world1
                               (multipart.NewWriter (boundary_outer world1)) s1
                               (Split (Attachments e) comma)
                        else (s1, None))))
               (buf_bytes
                  (fst (if nonempty (Attachments e)
                        then Writer_attachments lib world2
                               (multipart.NewWriter (boundary_outer world2)) s2
                               (Split (Attachments e) comma)
                        else (s2, None))))
             /\ snd (if nonempty (Attachments e)
                     then Writer_attachments lib world1
                            (multipart.NewWriter (boundary_outer world1)) s1
                            (Split (Attachments e) comma)
                     else (s1, None))
                = snd (if nonempty (Attachments e)
                       then Writer_attachments lib world2
                              (multipart.NewWriter (boundary_outer world2)) s2
                              (Split (Attachments e) comma)
                       else (s2, None))).
  { intros s1 s2 S. destruct (nonempty (Attachments e)).
    - apply Writer_attachments_alike; assumption.
    - split; [exact S | reflexivity]. }
  destruct (nonempty (Content e) || nonempty (ContentPath e))%bool; [|apply A; exact B].
  destruct (Writer_body_alike e d1 d2 B) as (B' & E).
  destruct (Writer_body lib world1 e d1 []) as [s1 r1].
  destruct (Writer_body lib world2 e d2 []) as [s2 r2].
  cbn [fst snd] in *. subst r2.
  destruct r1 as [err|]; [split; [exact B' | reflexivity]|].
  apply A. exact B'.
Qed.

End TwoRuns.

(** The top header that [Writer] sends holds the fields of [Headers] and
    the content type with the outer boundary. *)
Lemma top_headers_value (e : MailConfig) (o : string) :
  top_headers e o
  = (Headers e
     ++ [("Content-Type", [("multipart/mixed;" ++ CRLF ++ " boundary=" ++ o)%string])])%list.
Proof.
  unfold top_headers, Headers.
  destruct (To e) as [|c t], (Subject e) as [|c' t']; reflexivity.
Qed.

(** The relation tells payloads apart: where the first run has its outer
    boundary, the second has its outer boundary too and not its inner
    one, and it has no other length of line. *)
Example alike_tells_apart :
  alike "OUTER" "INNER" "B1" "B2" ("--OUTER" ++ CRLF) ("--B1" ++ CRLF)
  /\ (alike "OUTER" "INNER" "B1" "B2" ("--OUTER" ++ CRLF) ("--B2" ++ CRLF) -> False)
  /\ (alike "OUTER" "INNER" "B1" "B2" ("--OUTER" ++ CRLF) ("--B1--" ++ CRLF) -> False).
Proof.
  split; [|split].
  - apply (alike_app _ _ _ _ "--" "--"); [apply alike_refl|].
    apply (alike_app _ _ _ _ "OUTER" "B1" CRLF CRLF); [apply alike_o | apply alike_refl].
  - intros A.
    repeat match goal with
           | A' : alike _ _ _ _ _ _ |- _ => inversion A'; subst; clear A'; try discriminate
           end.
  - intros A.
    repeat match goal with
           | A' : alike _ _ _ _ _ _ |- _ => inversion A'; subst; clear A'; try discriminate
           end.
Qed.

(** The run that shows the payloads can differ in more than the
    boundaries: the same message, files and boundaries, and the runtime
    visits the header map in two orders, which both are orders of its
    four entries. *)
Lemma Writer_header_order_differs :
  (forall h, Permutation ((fun h : MIMEHeader => h) h) h)
  /\ (forall h : MIMEHeader, Permutation (rev h) h)
  /\ take 49 (buf_bytes (fst (Writer Sample.lib Sample.world Sample.msg
                                (mkBuffer EmptyString))))
     = "To: b@x.com,c@x.com" ++ CRLF ++ "Subject: hi" ++ CRLF
       ++ "From: a@x.com" ++ CRLF
  /\ take 49 (buf_bytes (fst (Writer Sample.lib Sample.world_rev Sample.msg
                                (mkBuffer EmptyString))))
     = "Content-Type: multipart/mixed;" ++ CRLF ++ " boundary=OUTER" ++ CRLF
  /\ (composes_identically Sample.lib Sample.world (fun h => h) (@rev _) Sample.msg
      -> False).
Proof.
  split; [intros h; apply Permutation_refl|].
  split; [intros h; apply Permutation_sym, Permutation_rev|].
  split; [vm_compute; reflexivity|]. split; [vm_compute; reflexivity|].
  unfold composes_identically. intros E.
  apply (f_equal (fun run => take 2 (buf_bytes (fst run)))) in E.
  vm_compute in E. discriminate E.
Qed.

(** C8, as the code has it: take two runs of [Writer] on the same message
    into two buffers, each run with its own two boundaries and its own
    order of visit of the header map, the files being the same.  Both
    return the same error.  Each payload is the top header of its run
    followed by a rest.  The top header of a run holds the lines of
    [Headers] and the content type line that ends with the outer boundary
    of that run, in the order in which the runtime visits the header map
    in that run.  The two rests are the same byte for byte but for the
    boundaries: where the first has its outer or inner boundary the second
    has its own.  When the two runs draw the same boundaries, the two
    rests are equal, and the two top headers hold the same lines. *)
Theorem Writer_same_up_to_header_order (lib : GoLib) (world1 world2 : World)
    (e : MailConfig) :
  (forall path, os_Open world1 path = os_Open world2 path) ->
  (forall h, Permutation (map_order world1 h) h) ->
  (forall h, Permutation (map_order world2 h) h) ->
  let o1 := boundary_outer world1 in
  let i1 := boundary_inner world1 in
  let o2 := boundary_outer world2 in
  let i2 := boundary_inner world2 in
  let lines1 := map (header_line lib) (map_order world1 (top_headers e o1)) in
  let lines2 := map (header_line lib) (map_order world2 (top_headers e o2)) in
  let run1 := Writer lib world1 e (mkBuffer EmptyString) in
  let run2 := Writer lib world2 e (mkBuffer EmptyString) in
  snd run1 = snd run2
  /\ Permutation lines1 (top_lines lib e o1)
  /\ Permutation lines2 (top_lines lib e o2)
  /\ exists rest1 rest2,
       buf_bytes (fst run1) = concat_lines lines1 ++ rest1
       /\ buf_bytes (fst run2) = concat_lines lines2 ++ rest2
       /\ alike o1 i1 o2 i2 rest1 rest2
       /\ (o1 = o2 -> i1 = i2 -> rest1 = rest2 /\ Permutation lines1 lines2).
Proof.
  intros same P1 P2 o1 i1 o2 i2 lines1 lines2 run1 run2.
  assert (Run : forall world,
             Writer lib world e (mkBuffer EmptyString)
             = (pre (concat_lines
                       (map (header_line lib)
                          (map_order world (top_headers e (boundary_outer world)))))
                    (fst (Writer_after_headers lib world e (mkBuffer EmptyString))),
                snd (Writer_after_headers lib world e (mkBuffer EmptyString)))).
  { intros world. rewrite Writer_split. unfold headerToBytes.
    rewrite headerToBytes_fields_Buffer. cbn [buf_bytes].
    change (EmptyString ++ ?x) with x.
    rewrite <- (pre_empty (concat_lines _)).
    apply Writer_after_headers_pre. }
  assert (L : forall world,
             (forall h, Permutation (map_order world h) h) ->
             Permutation
               (map (header_line lib)
                  (map_order world (top_headers e (boundary_outer world))))
               (top_lines lib e (boundary_outer world))).
  { intros world P. unfold top_lines.
    change [header_line lib ?entry] with (map (header_line lib) [entry]).
    rewrite <- map_app, <- top_headers_value. apply Permutation_map, P. }
  destruct (Writer_after_headers_alike lib world1 world2 same P1 P2 e) as (A & E).
  unfold run1, run2. rewrite !Run. cbn [fst snd].
  split; [exact E|].
  split; [apply L, P1|]. split; [apply L, P2|].
  exists (buf_bytes (fst (Writer_after_headers lib world1 e (mkBuffer EmptyString)))),
         (buf_bytes (fst (Writer_after_headers lib world2 e (mkBuffer EmptyString)))).
  split; [reflexivity|]. split; [reflexivity|]. split; [exact A|].
  intros Eo Ei. split.
  - exact (alike_same_tokens _ _ _ _ _ _ Eo Ei A).
  - apply (Permutation_trans (L world1 P1)).
    fold o1. rewrite Eo. apply Permutation_sym, (L world2 P2).
Qed.

Lemma Writer_same_up_to_header_order_witness :
  (forall path, os_Open Sample.world path = os_Open Sample.world_other path)
  /\ (forall h, Permutation (map_order Sample.world h) h)
  /\ (forall h, Permutation (map_order Sample.world_other h) h)
  /\ (let o1 := boundary_outer Sample.world in
      let i1 := boundary_inner Sample.world in
      let o2 := boundary_outer Sample.world_other in
      let i2 := boundary_inner Sample.world_other in
      let lines1 :=
        map (header_line Sample.lib)
            (map_order Sample.world (top_headers Sample.msg o1)) in
      let lines2 :=
        map (header_line Sample.lib)
            (map_order Sample.world_other (top_headers Sample.msg o2)) in
      let run1 := Writer Sample.lib Sample.world Sample.msg (mkBuffer EmptyString) in
      let run2 :=
        Writer Sample.lib Sample.world_other Sample.msg (mkBuffer EmptyString) in
      snd run1 = snd run2
      /\ Permutation lines1 (top_lines Sample.lib Sample.msg o1)
      /\ Permutation lines2 (top_lines Sample.lib Sample.msg o2)
      /\ exists rest1 rest2,
           buf_bytes (fst run1) = concat_lines lines1 ++ rest1
           /\ buf_bytes (fst run2) = concat_lines lines2 ++ rest2
           /\ alike o1 i1 o2 i2 rest1 rest2
           /\ (o1 = o2 -> i1 = i2 -> rest1 = rest2 /\ Permutation lines1 lines2)).
Proof.
  split; [intros path; reflexivity|].
  split; [intros h; apply Permutation_refl|].
  split; [intros h; apply Permutation_sym, Permutation_rev|].
  apply (Writer_same_up_to_header_order Sample.lib Sample.world Sample.world_other
           Sample.msg).
  - intros path. reflexivity.
  - intros h. apply Permutation_refl.
  - intros h. apply Permutation_sym, Permutation_rev.
Defined.

(** * Further properties *)

(** ** base64Wrap: reads, writes and the result *)

(** X3: The result of [base64Wrap] is decided by the reader alone: it is the
    first error that [Read] returns, or nil when that error is [io.EOF].
    What the sink answers to the writes plays no part, on any kind of
    sink. *)
Theorem base64Wrap_result_is_reader_outcome {S : Type} `{io_Writer S}
    (w : S) (r : Reader) :
  snd (base64Wrap w r) = reader_outcome r.
Proof.
  unfold base64Wrap.
  generalize (make maxRaw) as b, (make MaxLineLength ++ CRLF) as buffer. revert w.
  induction r as [|[chunk err] r IH]; intros w b buffer; [reflexivity|].
  rewrite base64Wrap_loop_cons. cbv zeta. cbn [reader_outcome].
  destruct err as [e|]; [destruct (is_EOF e); reflexivity|].
  destruct (Nat.eqb (snd (read_into b chunk)) maxRaw); apply IH.
Qed.

Lemma Scripted_Write_calls (w : Scripted) (p : string) :
  sk_calls (fst (Write w p)) = S (sk_calls w)
  /\ sk_verdict (fst (Write w p)) = sk_verdict w.
Proof.
  unfold Write, Scripted_Writer. destruct (sk_verdict w (sk_calls w)); split; reflexivity.
Qed.

Lemma base64Wrap_loop_calls (r : Reader) (b buffer : string) (w : Scripted) :
  sk_calls (fst (base64Wrap_loop r b buffer w)) = sk_calls w + reads_before_error r.
Proof.
  revert b buffer w. induction r as [|[chunk err] r IH]; intros b buffer w.
  - simpl. lia.
  - rewrite base64Wrap_loop_cons. cbv zeta. cbn [reads_before_error].
    destruct err as [e|]; [destruct (is_EOF e); simpl; lia|].
    destruct (Nat.eqb (snd (read_into b chunk)) maxRaw); rewrite IH;
      rewrite (proj1 (Scripted_Write_calls w _)); lia.
Qed.

(** X4: [base64Wrap] calls [Write] once for every successful [Read], a read
    of no byte included, also when the sink has refused the writes
    before: a failed write stops nothing. *)
Theorem base64Wrap_writes_once_per_read (r : Reader) (verdict : nat -> option error) :
  sk_calls (fst (base64Wrap (sk_new verdict) r)) = reads_before_error r.
Proof. unfold base64Wrap. rewrite base64Wrap_loop_calls. reflexivity. Qed.

(** A file whose size is a multiple of 57 is wrapped as described, one
    line of 76 characters and CRLF for each chunk of 57 bytes. *)
Lemma base64Wrap_multiple_of_57_witness :
  String.length "012345678901234567890123456789012345678901234567890123456" = maxRaw * 1
  /\ sk_chunks (fst (base64Wrap Sample.sound_sink
                       (file_reader maxRaw
                          (mkFile "012345678901234567890123456789012345678901234567890123456"
                                  None))))
     = ["MDEyMzQ1Njc4OTAxMjM0NTY3ODkwMTIzNDU2Nzg5MDEyMzQ1Njc4OTAxMjM0NTY3ODkwMTIzNDU2"
        ++ CRLF].
Proof.
  split; [reflexivity|].
  rewrite (base64Wrap_multiple_of_57
             "012345678901234567890123456789012345678901234567890123456" 1 eq_refl).
  reflexivity.
Defined.

(** ** MailConfig.Len: sums, precedence, errors *)

Lemma Len_tail_paths (world : World) (e : MailConfig) (l : Z) :
  Len_tail world e l = Len_attachments world (attachment_paths e) l.
Proof. unfold Len_tail, attachment_paths. destruct (nonempty (Attachments e)); reflexivity. Qed.

(** X5: With a body, when every attachment can be stat'ed and the sum stays
    below 2^63, [Len] returns the size of the body, the length of
    [Content] or else the size of the file at [ContentPath], plus the
    sizes of all the attachments, and no error. *)
Theorem Len_is_body_plus_attachments
    (world : World) (e : MailConfig) (body : Z) (sizes : list Z) :
  (Content e <> EmptyString /\ body = Z.of_nat (String.length (Content e))
   \/ Content e = EmptyString /\ ContentPath e <> EmptyString
      /\ os_Lstat world (ContentPath e) = inr body /\ (0 <= body)%Z) ->
  stat_sizes world (attachment_paths e) sizes ->
  Forall (fun size => 0 <= size)%Z sizes ->
  (body + fold_right Z.add 0 sizes < 2 ^ 63)%Z ->
  Len world e = ((body + fold_right Z.add 0 sizes)%Z, None).
Proof.
  intros B St N O.
  pose proof (sizes_sum_nonneg sizes N) as Sn.
  assert (B0 : (0 <= body)%Z) by (destruct B as [[_ ->]|(_ & _ & _ & P)]; lia).
  assert (T : Len_tail world e (wrap64 (0 + body))
              = ((body + fold_right Z.add 0 sizes)%Z, None)).
  { rewrite Len_tail_paths, (Len_attachments_sum world _ sizes) by exact St.
    rewrite Z.add_0_l, wrap64_small by lia.
    rewrite Len_sum_without_overflow by assumption. reflexivity. }
  unfold Len. cbv zeta.
  destruct B as [[C ->]|(C & P & L & _)].
  - apply nonempty_true in C. rewrite C. exact T.
  - apply nonempty_true in P. rewrite C, P, L. cbn [nonempty]. exact T.
Qed.

Lemma Len_is_body_plus_attachments_witness :
  Len Sample.world (Sample.with_body Sample.msg "hello" EmptyString "a.bin,notes.txt")
  = (11%Z, None)
  /\ Len Sample.world
       (Sample.with_body Sample.msg EmptyString "notes.txt" "a.bin")
     = (6%Z, None).
Proof.
  split.
  - apply (Len_is_body_plus_attachments Sample.world
             (Sample.with_body Sample.msg "hello" EmptyString "a.bin,notes.txt")
             5%Z [1%Z; 5%Z]).
    + left. split; [discriminate | reflexivity].
    + repeat constructor.
    + repeat constructor; discriminate.
    + reflexivity.
  - apply (Len_is_body_plus_attachments Sample.world
             (Sample.with_body Sample.msg EmptyString "notes.txt" "a.bin")
             5%Z [1%Z]).
    + right. repeat split; try discriminate.
    + repeat constructor.
    + repeat constructor; discriminate.
    + reflexivity.
Defined.

(** X6: When [Content] is not empty, [ContentPath] is ignored: [Len] does not
    stat it and [Writer] does not open it, so neither result depends on
    it. *)
Theorem Content_takes_precedence {S : Type} `{io_Writer S}
    (lib : GoLib) (world : World) (e : MailConfig) (contentPath : string)
    (datawriter : S) :
  Content e <> EmptyString ->
  Len world (with_ContentPath e contentPath) = Len world e
  /\ Writer lib world (with_ContentPath e contentPath) datawriter
     = Writer lib world e datawriter.
Proof.
  intros C. apply nonempty_true in C. split.
  - unfold Len. cbn [Content with_ContentPath]. rewrite C. reflexivity.
  - unfold Writer, Writer_body. cbn [Content Attachments Type_ with_ContentPath].
    rewrite C. reflexivity.
Qed.

Lemma Content_takes_precedence_witness :
  Content Sample.msg <> EmptyString
  /\ Len Sample.world (with_ContentPath Sample.msg "missing.txt")
     = Len Sample.world Sample.msg
  /\ Writer Sample.lib Sample.world (with_ContentPath Sample.msg "missing.txt")
       Sample.sound_sink
     = Writer Sample.lib Sample.world Sample.msg Sample.sound_sink.
Proof.
  split; [discriminate|].
  apply (Content_takes_precedence Sample.lib Sample.world Sample.msg "missing.txt"
           Sample.sound_sink).
  discriminate.
Defined.

(** X7: With a body, the first path that cannot be stat'ed, the body file
    first and then the attachments in the order of the list, ends [Len]
    with the error of that path and the size 0: nothing that was summed
    before is returned. *)
Theorem Len_returns_first_stat_error
    (world : World) (e : MailConfig) (err : error) :
  (Content e = EmptyString /\ ContentPath e <> EmptyString
   /\ os_Lstat world (ContentPath e) = inl err)
  \/ ((Content e <> EmptyString
       \/ ContentPath e <> EmptyString
          /\ exists body, os_Lstat world (ContentPath e) = inr body)
      /\ exists ok sizes path rest,
           attachment_paths e = (ok ++ path :: rest)%list
           /\ stat_sizes world ok sizes
           /\ os_Lstat world path = inl err) ->
  Len world e = (0%Z, Some err).
Proof.
  intros [(C & P & L) | [B (ok & sizes & path & rest & E & St & L)]].
  - unfold Len. apply nonempty_true in P. rewrite C, P, L. reflexivity.
  - assert (T : forall l, Len_tail world e l = (0%Z, Some err)).
    { intros l. rewrite Len_tail_paths, E.
      apply (Len_attachments_error world ok rest sizes path err l St L). }
    unfold Len. cbv zeta.
    destruct (nonempty (Content e)) eqn:C; [apply T|].
    destruct B as [B | [P (body & Lb)]].
    + apply nonempty_true in B. congruence.
    + apply nonempty_true in P. rewrite P, Lb. apply T.
Qed.

Lemma Len_returns_first_stat_error_witness :
  Len Sample.world (Sample.with_body Sample.msg "hello" EmptyString "a.bin,missing.bin,notes.txt")
  = (0%Z, Some Sample.ENOENT).
Proof.
  apply (Len_returns_first_stat_error Sample.world
           (Sample.with_body Sample.msg "hello" EmptyString "a.bin,missing.bin,notes.txt")
           Sample.ENOENT).
  right. split; [left; discriminate|].
  exists ["a.bin"], [1%Z], "missing.bin", ["notes.txt"].
  split; [reflexivity|]. split; [|reflexivity].
  repeat constructor.
Defined.

(** ** Headers and headerToBytes *)

Lemma Headers_value (e : MailConfig) :
  Headers e
  = ((if nonempty (To e) then [("To", [To e])] else [])
     ++ (if nonempty (Subject e) then [("Subject", [Subject e])] else [])
     ++ [("From", [From e])])%list.
Proof.
  unfold Headers. destruct (To e) as [|c t], (Subject e) as [|c' t']; reflexivity.
Qed.

Lemma lookup_In_keys (h : MIMEHeader) (key : string) :
  lookup h key <> None -> In key (map fst h).
Proof.
  induction h as [|[k v] h IH]; cbn [lookup map fst]; [congruence|].
  destruct (String.eqb_spec k key) as [->|N]; [left; reflexivity|].
  intros Q. right. apply IH, Q.
Qed.

(** X8: [Headers] always holds the field [From], with the sender as its one
    value even when the sender is empty; it holds [To] and [Subject] only
    when they are not empty, and no other field; no field is there
    twice. *)
Theorem Headers_fields (e : MailConfig) :
  lookup (Headers e) "From" = Some [From e]
  /\ lookup (Headers e) "To"
     = (if nonempty (To e) then Some [To e] else None)
  /\ lookup (Headers e) "Subject"
     = (if nonempty (Subject e) then Some [Subject e] else None)
  /\ (forall key, lookup (Headers e) key <> None ->
      key = "To" \/ key = "Subject" \/ key = "From")
  /\ NoDup (map fst (Headers e)).
Proof.
  rewrite Headers_value.
  destruct (nonempty (To e)), (nonempty (Subject e));
    (split; [reflexivity|]); (split; [reflexivity|]); (split; [reflexivity|]);
    (split;
     [intros key Q; apply lookup_In_keys in Q; cbn [map fst app In] in Q;
      intuition auto
     |cbn [map fst app]; repeat constructor; cbn [In]; intuition discriminate]).
Qed.

Lemma values_count_Permutation (h h' : MIMEHeader) :
  Permutation h h' -> values_count h = values_count h'.
Proof.
  induction 1 as [|[k v] h h' _ IH|[k v] [k' v'] h|h h' h'' _ IH1 _ IH2];
    cbn [values_count]; lia.
Qed.

Lemma headerToBytes_vals_calls (lib : GoLib) (field : string) (vals : list string)
    (w : Scripted) :
  sk_calls (headerToBytes_vals lib w field vals) = sk_calls w + 4 * List.length vals.
Proof.
  revert w. induction vals as [|v vals IH]; intros w; cbn [headerToBytes_vals List.length].
  - lia.
  - rewrite IH. unfold WriteString_.
    destruct (String.eqb field "Content-Type" || String.eqb field "Content-Disposition")%bool;
      rewrite !(fun w p => proj1 (Scripted_Write_calls w p)); lia.
Qed.

Lemma headerToBytes_fields_calls (lib : GoLib) (entries : MIMEHeader) (w : Scripted) :
  sk_calls (headerToBytes_fields lib w entries) = sk_calls w + 4 * values_count entries.
Proof.
  revert w. induction entries as [|[field vals] entries IH]; intros w;
    cbn [headerToBytes_fields values_count].
  - lia.
  - rewrite IH, headerToBytes_vals_calls. lia.
Qed.

(** X9: [headerToBytes] calls [Write] four times for every value of the
    header (the field, the colon, the value and CRLF), whatever the sink
    answers: a refused write does not end the function, which has no way
    to report it. *)
Theorem headerToBytes_four_writes_per_value (lib : GoLib) (world : World)
    (header : MIMEHeader) (w : Scripted) :
  (forall h, Permutation (map_order world h) h) ->
  sk_calls (headerToBytes lib world w header)
  = sk_calls w + 4 * values_count header.
Proof.
  intros P. unfold headerToBytes. rewrite headerToBytes_fields_calls.
  rewrite (values_count_Permutation _ _ (P header)). reflexivity.
Qed.

Lemma headerToBytes_four_writes_per_value_witness :
  (forall h, Permutation (map_order Sample.world h) h)
  /\ sk_calls (headerToBytes Sample.lib Sample.world Sample.broken_sink
                 (top_headers Sample.msg "OUTER"))
     = 16.
Proof.
  split; [intros h; apply Permutation_refl|].
  rewrite (headerToBytes_four_writes_per_value Sample.lib Sample.world
             (top_headers Sample.msg "OUTER") Sample.broken_sink
             (fun h => Permutation_refl h)).
  reflexivity.
Defined.

(** ** MailConfig.Writer on a buffer: success and the closing delimiters *)

Lemma part_Write_Buffer (b : Buffer) (p : multipart.part) (d : string) :
  Write (b, p) d
  = if multipart.closed p then ((b, p), Some ErrPartFinished)
    else ((mkBuffer (buf_bytes b ++ d), p), None).
Proof. unfold Write, multipart.part_Writer. destruct (multipart.closed p); reflexivity. Qed.

(** Through a part over a buffer no write error is ever recorded. *)
Lemma base64Wrap_loop_keeps_part (r : Reader) (bb buffer : string) (b : Buffer)
    (p : multipart.part) :
  snd (fst (base64Wrap_loop r bb buffer (b, p))) = p.
Proof.
  revert bb buffer b. induction r as [|[chunk err] r IH]; intros bb buffer b.
  - reflexivity.
  - rewrite base64Wrap_loop_cons. cbv zeta.
    destruct err as [e|]; [destruct (is_EOF e); reflexivity|].
    destruct (Nat.eqb (snd (read_into bb chunk)) maxRaw);
      rewrite part_Write_Buffer; destruct (multipart.closed p); apply IH.
Qed.

Lemma qp_flush_Buffer (lines : list string) (b : Buffer) :
  snd (qp_flush b lines) = None.
Proof.
  revert b. induction lines as [|line lines IH]; intros b; [reflexivity|].
  cbn [qp_flush]. rewrite Write_Buffer. apply IH.
Qed.

Lemma reader_outcome_file (n : nat) (data : string) :
  reader_outcome (file_reader n (mkFile data None)) = None.
Proof.
  unfold file_reader. cbn [f_bytes f_err].
  induction (file_chunks (String.length data) n data) as [|c l IH]; [reflexivity|].
  exact IH.
Qed.

Lemma CreatePart_clean (w : multipart.Writer) (header : MIMEHeader) (b : Buffer) :
  clean w ->
  exists w' text,
    multipart.CreatePart w b header
    = (w', mkBuffer (buf_bytes b ++ text), inr (multipart.mkPart None false))
    /\ multipart.lastpart w' = Some (multipart.mkPart None false)
    /\ multipart.Boundary w' = multipart.Boundary w.
Proof.
  intros C. unfold multipart.CreatePart, multipart.close_lastpart, clean in *.
  destruct (multipart.lastpart w) as [p|] eqn:L.
  - rewrite C, Write_Buffer. eexists _, _. repeat split.
  - rewrite L, Write_Buffer. eexists _, _. repeat split.
Qed.

Lemma Close_clean (w : multipart.Writer) (b : Buffer) :
  clean w ->
  exists w',
    multipart.Close w b
    = (w', mkBuffer (buf_bytes b ++ closing_delimiter (multipart.Boundary w)), None).
Proof.
  intros C. unfold multipart.Close, multipart.close_lastpart, clean in *.
  destruct (multipart.lastpart w) as [p|] eqn:L.
  - rewrite C, Write_Buffer. eexists. reflexivity.
  - rewrite Write_Buffer. eexists. reflexivity.
Qed.

(** [attach] on a buffer: the writer stays clean, and the only errors
    are those of the file. *)
Lemma attach_Buffer (lib : GoLib) (world : World) (w : multipart.Writer)
    (filename : string) (b : Buffer) :
  clean w ->
  clean (fst (fst (attach lib world w b filename)))
  /\ multipart.Boundary (fst (fst (attach lib world w b filename)))
     = multipart.Boundary w
  /\ ((exists data, os_Open world filename = inr (mkFile data None)) ->
      snd (attach lib world w b filename) = None).
Proof.
  intros C. unfold attach.
  destruct (os_Open world filename) as [err|File] eqn:O.
  - repeat split; [exact C|]. intros (data & D). discriminate D.
  - destruct (CreatePart_clean w
                (Set_ (Set_ (Set_
                   (if nonempty (mime_TypeByExtension lib (filepath_Ext lib filename))
                    then Set_ [] "Content-Type"
                           (mime_TypeByExtension lib (filepath_Ext lib filename))
                    else Set_ [] "Content-Type" "application/octet-stream")
                   "Content-Disposition"
                   ("attachment;" ++ CRLF ++ " filename="
                    ++ String dquote (filepath_Base lib filename)
                    ++ String dquote EmptyString))
                   "Content-ID" ("<" ++ filepath_Base lib filename ++ ">"))
                   "Content-Transfer-Encoding" "base64") b C)
      as (w' & text & E & L & B).
    cbv zeta. rewrite E.
    pose proof (base64Wrap_loop_keeps_part (file_reader maxRaw File) (make maxRaw)
                  (make MaxLineLength ++ CRLF) (mkBuffer (buf_bytes b ++ text))
                  (multipart.mkPart None false)) as K.
    pose proof (base64Wrap_result_is_reader_outcome
                  (mkBuffer (buf_bytes b ++ text), multipart.mkPart None false)
                  (file_reader maxRaw File)) as R.
    unfold base64Wrap in *.
    destruct (base64Wrap_loop _ _ _ _) as [[s mw] err]. cbn [fst snd] in *. subst mw.
    repeat split; [exact B|].
    intros (data & D). inversion D. subst File. rewrite R. apply reader_outcome_file.
Qed.

Lemma Writer_attachments_Buffer_ok (lib : GoLib) (world : World) (list : list string)
    (w : multipart.Writer) (b : Buffer) :
  clean w ->
  (forall path, In path list -> exists data, os_Open world path = inr (mkFile data None)) ->
  snd (Writer_attachments lib world w b list) = None.
Proof.
  revert w b. induction list as [|path rest IH]; intros w b C A; [reflexivity|].
  cbn [Writer_attachments].
  destruct (attach_Buffer lib world w path b C) as (C' & _ & Ok).
  specialize (Ok (A path (or_introl eq_refl))).
  destruct (attach lib world w b path) as [[w' s] err]. cbn [fst snd] in *. subst err.
  apply IH; [exact C'|]. intros p I. apply A. right. exact I.
Qed.

Lemma Writer_attachments_Buffer_error (lib : GoLib) (world : World) (list : list string)
    (w : multipart.Writer) (b : Buffer) (err : error) :
  clean w ->
  snd (Writer_attachments lib world w b list) = Some err ->
  exists x,
    buf_bytes (fst (Writer_attachments lib world w b list))
    = x ++ closing_delimiter (multipart.Boundary w).
Proof.
  revert w b. induction list as [|path rest IH]; intros w b C E; [discriminate E|].
  cbn [Writer_attachments] in *.
  destruct (attach_Buffer lib world w path b C) as (C' & B & _).
  destruct (attach lib world w b path) as [[w' s] [e|]]; cbn [fst snd] in *.
  - destruct (Close_clean w' s C') as (w'' & Ec). rewrite Ec. cbn [fst buf_bytes].
    rewrite B. eexists. reflexivity.
  - rewrite <- B. apply IH; assumption.
Qed.

Lemma Writer_body_Buffer (lib : GoLib) (world : World) (e : MailConfig) (b : Buffer) :
  (exists x,
     snd (Writer_body lib world e b []) = None
     /\ buf_bytes (fst (Writer_body lib world e b []))
        = x ++ closing_delimiter (boundary_inner world))
  \/ (exists err,
        snd (Writer_body lib world e b []) = Some err
        /\ Content e = EmptyString
        /\ forall data, os_Open world (ContentPath e) <> inr (mkFile data None)).
Proof.
  unfold Writer_body. cbv zeta.
  set (header := Set_ (Set_ _ "Content-Type" _) "Content-Transfer-Encoding" _).
  set (b1 := headerToBytes lib world b _).
  destruct (CreatePart_clean (multipart.NewWriter (boundary_inner world)) header b1 I)
    as (w' & text & E & L & B).
  assert (C' : clean w') by (unfold clean; rewrite L; reflexivity).
  rewrite E.
  destruct (nonempty (Content e)) eqn:Hc.
  - left.
    pose proof (qp_flush_Buffer (qp_Write lib (Content e))
                  (mkBuffer (buf_bytes b1 ++ text))) as Q1.
    destruct (qp_flush _ (qp_Write lib (Content e))) as [s1 e1].
    cbn [snd] in Q1. subst e1.
    pose proof (qp_flush_Buffer (qp_Close lib (Content e)) s1) as Q2.
    destruct (qp_flush s1 _) as [s2 e2]. cbn [snd] in Q2. subst e2.
    destruct (Close_clean w' s2 C') as (w'' & Ec). rewrite Ec, B.
    eexists. split; reflexivity.
  - apply nonempty_false in Hc.
    destruct (os_Open world (ContentPath e)) as [err|[data ferr]] eqn:O.
    + right. exists err. repeat split; [exact Hc|]. intros data D. discriminate D.
    + pose proof (qp_flush_Buffer (qp_Write lib data)
                    (mkBuffer (buf_bytes b1 ++ text))) as Q1.
      cbn [f_bytes f_err].
      destruct (qp_flush _ (qp_Write lib data)) as [s1 e1].
      cbn [snd] in Q1. subst e1.
      destruct ferr as [err|].
      * right. exists err. repeat split; [exact Hc|]. intros d D. inversion D.
      * left.
        pose proof (qp_flush_Buffer (qp_Close lib data) s1) as Q2.
        destruct (qp_flush s1 _) as [s2 e2]. cbn [snd] in Q2. subst e2.
        destruct (Close_clean w' s2 C') as (w'' & Ec). rewrite Ec, B.
        eexists. split; reflexivity.
Qed.

Lemma Writer_unfold {S : Type} `{io_Writer S} (lib : GoLib) (world : World)
    (e : MailConfig) (datawriter : S) :
  Writer lib world e datawriter
  = let d0 :=
      Fprintf_
        (WriteString_
           (headerToBytes lib world datawriter (top_headers e (boundary_outer world)))
           CRLF)
        ("--" ++ boundary_outer world ++ CRLF) in
    match (if (nonempty (Content e) || nonempty (ContentPath e))%bool
           then Writer_body lib world e d0 []
           else (d0, None)) with
    | (d, Some err) => (d, Some err)
    | (d, None) =>
        Writer_attachments lib world (multipart.NewWriter (boundary_outer world)) d
          (attachment_paths e)
    end.
Proof.
  unfold Writer, attachment_paths. cbv zeta.
  destruct (if (nonempty (Content e) || nonempty (ContentPath e))%bool
            then Writer_body lib world e _ []
            else _) as [d [err|]]; [reflexivity|].
  destruct (nonempty (Attachments e)); reflexivity.
Qed.

(** X11: Composing into a buffer fails for no other reason than a file: when
    the body file (if one is used) and every attachment can be opened and
    read to the end, [Writer] returns nil. *)
Theorem Writer_succeeds_on_buffer (lib : GoLib) (world : World) (e : MailConfig)
    (b : Buffer) :
  files_readable world e ->
  snd (Writer lib world e b) = None.
Proof.
  intros [Fb Fa]. rewrite Writer_unfold. cbv zeta.
  set (d0 := Fprintf_ _ _).
  assert (A : forall d : Buffer,
             snd (Writer_attachments lib world
                    (multipart.NewWriter (boundary_outer world)) d (attachment_paths e))
             = None).
  { intros d. apply Writer_attachments_Buffer_ok; [exact I | exact Fa]. }
  destruct (nonempty (Content e) || nonempty (ContentPath e))%bool eqn:Hb; [|apply A].
  destruct (Writer_body_Buffer lib world e d0) as [(x & E & _) | (err & _ & C & N)].
  - destruct (Writer_body lib world e d0 []) as [d r]. cbn [snd] in E. subst r. apply A.
  - exfalso. rewrite C in Hb. cbn [nonempty orb] in Hb.
    apply nonempty_true in Hb. destruct (Fb C Hb) as (data & D). exact (N data D).
Qed.

Lemma Writer_succeeds_on_buffer_witness :
  files_readable Sample.world
    (Sample.with_body Sample.msg EmptyString "notes.txt" "a.bin,notes.txt")
  /\ snd (Writer Sample.lib Sample.world
            (Sample.with_body Sample.msg EmptyString "notes.txt" "a.bin,notes.txt")
            (mkBuffer EmptyString))
     = None.
Proof.
  assert (F : files_readable Sample.world
                (Sample.with_body Sample.msg EmptyString "notes.txt" "a.bin,notes.txt")).
  { split.
    - intros _ _. exists "hello". reflexivity.
    - intros path [<-|[<-|[]]]; [exists "A" | exists "hello"]; reflexivity. }
  split; [exact F|].
  apply (Writer_succeeds_on_buffer Sample.lib Sample.world
           (Sample.with_body Sample.msg EmptyString "notes.txt" "a.bin,notes.txt")
           (mkBuffer EmptyString) F).
Defined.

(** X12: A message with a body and no attachment that is composed into a
    buffer with success ends with the closing delimiter of the inner
    boundary: the last bytes of the payload close the
    multipart/alternative part, and nothing follows them. *)
Theorem Writer_body_only_ends_with_inner_delimiter (lib : GoLib) (world : World)
    (e : MailConfig) (b : Buffer) :
  Attachments e = EmptyString ->
  Content e <> EmptyString \/ ContentPath e <> EmptyString ->
  snd (Writer lib world e b) = None ->
  exists x,
    buf_bytes (fst (Writer lib world e b))
    = x ++ closing_delimiter (boundary_inner world).
Proof.
  intros A B. rewrite Writer_unfold. cbv zeta. unfold attachment_paths.
  rewrite A. cbn [nonempty Writer_attachments].
  assert (Hb : (nonempty (Content e) || nonempty (ContentPath e))%bool = true).
  { destruct B as [B|B]; apply nonempty_true in B; rewrite B;
      [reflexivity | apply orb_true_r]. }
  rewrite Hb. set (d0 := Fprintf_ _ _).
  destruct (Writer_body_Buffer lib world e d0) as [(x & E & X) | (err & E & _)];
    destruct (Writer_body lib world e d0 []) as [d r]; cbn [fst snd] in *; subst r.
  - intros _. exists x. exact X.
  - discriminate.
Qed.

Lemma Writer_body_only_ends_with_inner_delimiter_witness :
  exists x,
    buf_bytes (fst (Writer Sample.lib Sample.world Sample.msg (mkBuffer EmptyString)))
    = x ++ closing_delimiter (boundary_inner Sample.world).
Proof.
  apply (Writer_body_only_ends_with_inner_delimiter Sample.lib Sample.world Sample.msg
           (mkBuffer EmptyString)).
  - reflexivity.
  - left. discriminate.
  - reflexivity.
Defined.

Lemma Writer_body_without_attachments {S : Type} `{io_Writer S} (lib : GoLib)
    (world : World) (e : MailConfig) (attachments : string) (d : S) (h : MIMEHeader) :
  Writer_body lib world (with_Attachments e attachments) d h = Writer_body lib world e d h.
Proof. reflexivity. Qed.

(** X13: When a message is composed into a buffer and composing it without its
    attachments succeeds, a failure of [Writer] comes from an attachment,
    and then the payload ends with the closing delimiter of the outer
    boundary: on this path the code closes the outer writer before it
    returns the error. *)
Theorem Writer_attachment_failure_closes_outer (lib : GoLib) (world : World)
    (e : MailConfig) (b : Buffer) (err : error) :
  snd (Writer lib world (with_Attachments e EmptyString) b) = None ->
  snd (Writer lib world e b) = Some err ->
  exists x,
    buf_bytes (fst (Writer lib world e b))
    = x ++ closing_delimiter (boundary_outer world).
Proof.
  rewrite !Writer_unfold. cbv zeta. unfold attachment_paths at 1.
  cbn [Attachments Content ContentPath with_Attachments nonempty Writer_attachments].
  change (top_headers (with_Attachments e EmptyString) (boundary_outer world))
    with (top_headers e (boundary_outer world)).
  set (d0 := Fprintf_ _ _).
  rewrite Writer_body_without_attachments.
  destruct (if (nonempty (Content e) || nonempty (ContentPath e))%bool
            then Writer_body lib world e d0 []
            else (d0, None)) as [d [e0|]]; [discriminate|].
  intros _ E.
  apply (Writer_attachments_Buffer_error lib world _
           (multipart.NewWriter (boundary_outer world)) d err I E).
Qed.

Lemma Writer_attachment_failure_closes_outer_witness :
  snd (Writer Sample.lib Sample.world
         (Sample.with_body Sample.msg "hello" EmptyString "a.bin,missing.bin")
         (mkBuffer EmptyString))
  = Some Sample.ENOENT
  /\ exists x,
       buf_bytes (fst (Writer Sample.lib Sample.world
                         (Sample.with_body Sample.msg "hello" EmptyString
                            "a.bin,missing.bin")
                         (mkBuffer EmptyString)))
       = x ++ closing_delimiter (boundary_outer Sample.world).
Proof.
  split; [reflexivity|].
  apply (Writer_attachment_failure_closes_outer Sample.lib Sample.world
           (Sample.with_body Sample.msg "hello" EmptyString "a.bin,missing.bin")
           (mkBuffer EmptyString) Sample.ENOENT); reflexivity.
Defined.

(** X14: A write that failed in the body of an attachment is kept by its part
    and comes back when the next attachment begins: [attach] then returns
    that error before it writes anything for the new attachment. *)
Theorem attach_reports_error_of_previous_part {S : Type} `{io_Writer S}
    (lib : GoLib) (world : World) (w : multipart.Writer) (p : multipart.part)
    (sink : S) (filename : string) (file : File) (err : error) :
  multipart.lastpart w = Some p -> multipart.we p = Some err ->
  os_Open world filename = inr file ->
  attach lib world w sink filename
  = (multipart.set_lastpart w (Some (multipart.mkPart (Some err) true)), sink, Some err).
Proof.
  intros L E O. unfold attach, multipart.CreatePart, multipart.close_lastpart.
  rewrite O, L, E. reflexivity.
Qed.

(** The same through [Writer]: the sink takes the first 19 writes and
    refuses the twentieth, the base64 line of the first of two
    attachments; the error comes back when the second begins. *)
Lemma attach_reports_error_of_previous_part_witness :
  attach Sample.lib Sample.world
    (multipart.mkWriter "OUTER" (Some (multipart.mkPart (Some Sample.EIO) false)))
    Sample.sound_sink "a.bin"
  = (multipart.mkWriter "OUTER" (Some (multipart.mkPart (Some Sample.EIO) true)),
     Sample.sound_sink, Some Sample.EIO)
  /\ snd (Writer Sample.lib Sample.world
            (Sample.with_body Sample.msg EmptyString EmptyString "a.bin,notes.txt")
            (Sample.full_after 19))
     = Some Sample.EIO.
Proof.
  split; [|vm_compute; reflexivity].
  apply (attach_reports_error_of_previous_part Sample.lib Sample.world
           (multipart.mkWriter "OUTER" (Some (multipart.mkPart (Some Sample.EIO) false)))
           (multipart.mkPart (Some Sample.EIO) false)
           Sample.sound_sink "a.bin" (mkFile "A" None) Sample.EIO);
    reflexivity.
Defined.

(** ** strings.Split: the fields and the string *)

Lemma concat_cons (sep x : string) (l : list string) :
  l <> [] -> String.concat sep (x :: l) = x ++ sep ++ String.concat sep l.
Proof. destruct l; [congruence | reflexivity]. Qed.

Lemma Split_from_concat (sep : ascii) (s cur : string) :
  String.concat (String sep EmptyString) (Split_from sep cur s) = cur ++ s.
Proof.
  revert cur. induction s as [|c s IH]; intros cur; cbn [Split_from].
  - cbn [String.concat]. symmetry. apply append_nil_r.
  - destruct (Ascii.eqb_spec c sep) as [->|N].
    + rewrite concat_cons by apply Split_from_not_nil. rewrite IH. reflexivity.
    + rewrite IH, append_assoc. reflexivity.
Qed.

(** Joining the fields with the separator gives the string back. *)
Lemma Split_concat (s : string) (sep : ascii) :
  String.concat (String sep EmptyString) (Split s sep) = s.
Proof. apply Split_from_concat. Qed.

Lemma mem_ascii_append (c : ascii) (s t : string) :
  mem_ascii c (s ++ t) = (mem_ascii c s || mem_ascii c t)%bool.
Proof.
  induction s as [|d s IH]; cbn [mem_ascii String.append]; [reflexivity|].
  rewrite IH. apply orb_assoc.
Qed.

Lemma Split_from_fields (sep : ascii) (s cur : string) :
  mem_ascii sep cur = false ->
  Forall (fun field => mem_ascii sep field = false) (Split_from sep cur s).
Proof.
  revert cur. induction s as [|c s IH]; intros cur M; cbn [Split_from].
  - repeat constructor. exact M.
  - destruct (Ascii.eqb_spec c sep) as [->|N].
    + constructor; [exact M | apply IH; reflexivity].
    + apply IH. rewrite mem_ascii_append, M. cbn [mem_ascii orb].
      rewrite orb_false_r. apply Ascii.eqb_neq. congruence.
Qed.

(** No field holds the separator. *)
Lemma Split_fields (s : string) (sep : ascii) :
  Forall (fun field => mem_ascii sep field = false) (Split s sep).
Proof. apply Split_from_fields. reflexivity. Qed.

(** The first field is the string up to its first separator. *)
Lemma Split_from_first (sep : ascii) (s cur : string) :
  exists field,
    hd EmptyString (Split_from sep cur s) = cur ++ field
    /\ (s = field \/ exists rest, s = field ++ String sep rest).
Proof.
  revert cur. induction s as [|c s IH]; intros cur; cbn [Split_from].
  - exists EmptyString. split; [symmetry; apply append_nil_r | left; reflexivity].
  - destruct (Ascii.eqb_spec c sep) as [->|N].
    + exists EmptyString. split; [symmetry; apply append_nil_r|].
      right. exists s. reflexivity.
    + destruct (IH (cur ++ String c EmptyString)) as (field & H & R).
      exists (String c field). split.
      * rewrite H, append_assoc. reflexivity.
      * destruct R as [->|(rest & ->)]; [left | right; exists rest]; reflexivity.
Qed.

(** ** MailSend: what is sent *)

Lemma In_andThen (c c' : Call) (answer : option error) (k : option error * list Call) :
  In c (snd (andThen c' answer k)) -> c = c' \/ In c (snd k).
Proof.
  destruct answer as [err|]; cbn [andThen fst snd]; intros [E|I]; auto.
  destruct I.
Qed.

Lemma In_MailSend_rcpts (c : Call) (srv : Server) (to : list string) (i : nat)
    (k : option error * list Call) :
  In c (snd (MailSend_rcpts srv i to k)) ->
  (exists addr, c = CRcpt addr /\ In addr to) \/ In c (snd k).
Proof.
  revert i. induction to as [|a to IH]; intros i; cbn [MailSend_rcpts]; [auto|].
  intros I. apply In_andThen in I. destruct I as [->|I].
  - left. exists a. split; [reflexivity | left; reflexivity].
  - apply IH in I. destruct I as [(addr & E & I)|I]; [|auto].
    left. exists addr. split; [exact E | right; exact I].
Qed.

Lemma In_MailSend_data (c : Call) (srv : Server) (body : Body) :
  In c (snd (MailSend_data srv body)) -> In c (data_calls body).
Proof.
  unfold MailSend_data, data_calls, payload_of.
  destruct (on_Data srv), (on_Copy srv), (on_DataClose srv), (rewound body);
    cbn; intuition auto.
Qed.

(** X15: Whatever the server answers, every call of a run of [MailSend] is one
    of these: the dial to [Host]; HELO and STARTTLS with the host name,
    the part of [Host] before its first colon; AUTH; MAIL with [From] as
    it stands; RCPT with a field of [To]; DATA, the rewind when the body
    can seek, the copy of the body as it stands, the end of data, QUIT;
    and the release of the connection. *)
Theorem MailSend_calls (srv : Server) (msg : MailConfig) (body : Body) (c : Call) :
  In c (snd (MailSend srv msg body)) ->
  let host := hd EmptyString (Split (Host msg) colon) in
  c = CDial (Host msg) \/ c = CHello host \/ c = CStartTLS host
  \/ c = CAuth \/ c = CMail (From msg)
  \/ (exists addr, c = CRcpt addr /\ In addr (Split (To msg) comma))
  \/ In c (data_calls body) \/ c = CClose.
Proof.
  intros I host. unfold MailSend in I.
  destruct (negb (nonempty (From msg))
            || Nat.eqb (List.length (Split (To msg) comma)) 0)%bool; [destruct I|].
  destruct (on_Dial srv) as [err|]; cbn [fst snd] in I.
  - destruct I as [<-|[]]. auto.
  - destruct I as [<-|I]; [auto|].
    apply in_app_or in I. destruct I as [I|[<-|[]]]; [|auto 10].
    unfold MailSend_session in I. fold host in I.
    apply In_andThen in I. destruct I as [->|I]; [auto|].
    assert (K : In c (snd (andThen CAuth (on_Auth srv)
                             (andThen (CMail (From msg)) (on_Mail srv)
                                (MailSend_rcpts srv 0 (Split (To msg) comma)
                                   (MailSend_data srv body))))) ->
                c = CAuth \/ c = CMail (From msg)
                \/ (exists addr, c = CRcpt addr /\ In addr (Split (To msg) comma))
                \/ In c (data_calls body)).
    { intros K. apply In_andThen in K. destruct K as [->|K]; [auto|].
      apply In_andThen in K. destruct K as [->|K]; [auto|].
      apply In_MailSend_rcpts in K. destruct K as [K|K]; [auto|].
      apply In_MailSend_data in K. auto. }
    destruct (offers_STARTTLS srv).
    + apply In_andThen in I. destruct I as [->|I]; [auto|].
      apply K in I. intuition auto.
    + apply K in I. intuition auto.
Qed.

Lemma MailSend_calls_witness :
  In (CRcpt "c@x.com") (snd (MailSend Sample.accepting Sample.msg Sample.body))
  /\ (let host := hd EmptyString (Split (Host Sample.msg) colon) in
      CRcpt "c@x.com" = CDial (Host Sample.msg) \/ CRcpt "c@x.com" = CHello host
      \/ CRcpt "c@x.com" = CStartTLS host
      \/ CRcpt "c@x.com" = CAuth \/ CRcpt "c@x.com" = CMail (From Sample.msg)
      \/ (exists addr, CRcpt "c@x.com" = CRcpt addr
                       /\ In addr (Split (To Sample.msg) comma))
      \/ In (CRcpt "c@x.com") (data_calls Sample.body) \/ CRcpt "c@x.com" = CClose).
Proof.
  assert (I : In (CRcpt "c@x.com")
                (snd (MailSend Sample.accepting Sample.msg Sample.body))).
  { simpl. auto 10. }
  split; [exact I|].
  exact (MailSend_calls Sample.accepting Sample.msg Sample.body (CRcpt "c@x.com") I).
Defined.

(** X16: The host name that [MailSend] greets with, and checks the TLS
    certificate against, holds no colon and is [Host] itself or what
    stands before the first colon of [Host]. *)
Theorem MailSend_host_name (msg : MailConfig) :
  let host := hd EmptyString (Split (Host msg) colon) in
  mem_ascii colon host = false
  /\ (Host msg = host \/ exists rest, Host msg = host ++ String colon rest).
Proof.
  intros host. split.
  - pose proof (Split_fields (Host msg) colon) as F. unfold host.
    pose proof (Split_length_pos (Host msg) colon) as L.
    destruct (Split (Host msg) colon) as [|f l]; [simpl in L; lia|].
    inversion F. assumption.
  - unfold host, Split.
    destruct (Split_from_first colon (Host msg) EmptyString) as (field & H & R).
    rewrite H. exact R.
Qed.

(** X17: When every step is accepted, the session is the prelude, one RCPT
    for each recipient of [To] in order, DATA, the rewind of a body that
    can seek, the copy of the body, the end of data, QUIT and the release;
    the result is the answer to QUIT. *)
Theorem MailSend_accepted_session (srv : Server) (msg : MailConfig) (body : Body) :
  From msg <> EmptyString -> on_Dial srv = None ->
  steps_succeed srv (List.length (Split (To msg) comma)) ->
  MailSend srv msg body
  = (on_Quit srv,
     prelude srv msg ++ map CRcpt (Split (To msg) comma)
     ++ data_calls body ++ [CClose])%list.
Proof.
  intros F D (Hh & Ht & Ha & Hm & Acc & Hd & Hc & Hx).
  assert (R : reaches_rcpt srv) by (unfold reaches_rcpt; auto).
  rewrite (MailSend_reaching_rcpt srv msg body F R).
  rewrite (MailSend_rcpts_all_accepted srv (Split (To msg) comma) 0) by exact Acc.
  assert (E : MailSend_data srv body = (on_Quit srv, data_calls body)).
  { unfold MailSend_data, data_calls, payload_of. rewrite Hd, Hc, Hx.
    destruct (rewound body); reflexivity. }
  rewrite E. cbn [fst snd]. rewrite <- !app_assoc. reflexivity.
Qed.

Lemma MailSend_accepted_session_witness :
  MailSend Sample.accepting Sample.msg (mkBody EmptyString (Some "payload"))
  = (None,
     [CDial "mail.x.com:25"; CHello "mail.x.com"; CAuth; CMail "a@x.com";
      CRcpt "b@x.com"; CRcpt "c@x.com"; CData; CSeek; CCopy "payload"; CDataClose;
      CQuit; CClose]).
Proof.
  rewrite (MailSend_accepted_session Sample.accepting Sample.msg
             (mkBody EmptyString (Some "payload"))).
  - reflexivity.
  - discriminate.
  - reflexivity.
  - unfold steps_succeed. simpl. repeat split.
Defined.

(** X18: There is no fall back to plain text: when the server offers STARTTLS
    and the upgrade fails, the run ends with an error, and nothing is
    sent but the dial, the greeting, STARTTLS and the release: no
    credentials, no addresses, no message. *)
Theorem MailSend_no_plaintext_fallback
    (srv : Server) (msg : MailConfig) (body : Body) (err : error) :
  offers_STARTTLS srv = true -> on_StartTLS srv = Some err ->
  let host := hd EmptyString (Split (Host msg) colon) in
  (exists e, fst (MailSend srv msg body) = Some e)
  /\ (forall c, In c (snd (MailSend srv msg body)) ->
      c = CDial (Host msg) \/ c = CHello host \/ c = CStartTLS host \/ c = CClose)
  /\ (From msg <> EmptyString -> on_Dial srv = None -> on_Hello srv = None ->
      MailSend srv msg body
      = (Some err, [CDial (Host msg); CHello host; CStartTLS host; CClose])).
Proof.
  intros O T host. unfold MailSend, MailSend_session. fold host. rewrite O, T.
  destruct (negb (nonempty (From msg))
            || Nat.eqb (List.length (Split (To msg) comma)) 0)%bool eqn:G.
  - split; [eexists; reflexivity|]. split; [intros c []|].
    intros F. apply nonempty_true in F. rewrite F in G. cbn [negb orb] in G.
    pose proof (Split_length_pos (To msg) comma) as L.
    apply Nat.eqb_eq in G. lia.
  - destruct (on_Dial srv) as [e|]; [|destruct (on_Hello srv) as [e|]]; cbn.
    + split; [eexists; reflexivity|]. split; [intuition auto | discriminate].
    + split; [eexists; reflexivity|]. split; [intuition auto | discriminate].
    + split; [eexists; reflexivity|]. split; [intuition auto | reflexivity].
Qed.

Lemma MailSend_no_plaintext_fallback_witness :
  MailSend
    (mkServer None None true (Some (Errno 454)) None None (fun _ => None)
       None None None None)
    Sample.msg Sample.body
  = (Some (Errno 454),
     [CDial "mail.x.com:25"; CHello "mail.x.com"; CStartTLS "mail.x.com"; CClose]).
Proof.
  refine (proj2 (proj2
            (MailSend_no_plaintext_fallback
               (mkServer None None true (Some (Errno 454)) None None (fun _ => None)
                  None None None None)
               Sample.msg Sample.body (Errno 454) eq_refl eq_refl)) _ eq_refl eq_refl).
  discriminate.
Defined.

(** X19: In a run that gets to DATA the recipients of the RCPT commands are
    the fields of [To] as they stand: joined with commas they give [To]
    back, byte for byte, and none of them holds a comma.  Nothing is
    trimmed and no empty field is left out. *)
Theorem MailSend_rcpts_are_To (srv : Server) (msg : MailConfig) (body : Body) :
  In CData (snd (MailSend srv msg body)) ->
  String.concat "," (rcpts_of (snd (MailSend srv msg body))) = To msg
  /\ Forall (fun addr => mem_ascii comma addr = false)
            (rcpts_of (snd (MailSend srv msg body))).
Proof.
  intros I. destruct (rcpt_ordered_MailSend srv msg body) as [_ A].
  rewrite (A I). split; [apply (Split_concat (To msg) comma) | apply Split_fields].
Qed.

Lemma MailSend_rcpts_are_To_witness :
  rcpts_of (snd (MailSend Sample.accepting
                   (Sample.with_To Sample.msg "b@x.com, c@x.com,") Sample.body))
  = ["b@x.com"; " c@x.com"; EmptyString]
  /\ String.concat ","
       (rcpts_of (snd (MailSend Sample.accepting
                         (Sample.with_To Sample.msg "b@x.com, c@x.com,") Sample.body)))
     = "b@x.com, c@x.com,".
Proof.
  split; [reflexivity|].
  apply (MailSend_rcpts_are_To Sample.accepting
           (Sample.with_To Sample.msg "b@x.com, c@x.com,") Sample.body).
  simpl. auto 10.
Defined.

(** ** MailRun: the temporary file, the payload, the order of the steps *)

Lemma MailSend_smtp_only (srv : Server) (msg : MailConfig) (body : Body) (c : Call) :
  In c (snd (MailSend srv msg body)) -> is_smtp c = true.
Proof.
  intros I. apply MailSend_calls in I. cbv zeta in I.
  destruct I as [->|[->|[->|[->|[->|[(addr & -> & _)|[I| ->]]]]]]]; try reflexivity.
  unfold data_calls in I. destruct (rewound body); cbn in I;
    intuition (subst; reflexivity).
Qed.

Lemma MailSend_copies_body (srv : Server) (msg : MailConfig) (body : Body) (p : string) :
  In (CCopy p) (snd (MailSend srv msg body)) -> p = payload_of body.
Proof.
  intros I. apply MailSend_calls in I. cbv zeta in I.
  destruct I as [E|[E|[E|[E|[E|[(addr & E & _)|[I|E]]]]]]]; try discriminate E.
  unfold data_calls in I. destruct (rewound body); cbn in I;
    intuition (try discriminate; congruence).
Qed.

(** The calls of a run of [MailRun] past the parameter check, for the two
    kinds of sink. *)
Lemma MailRun_send_calls {S : Type} `{io_Writer S} (lib : GoLib) (out : Outside)
    (cfg : MailConfig) (file : S) (as_body : S -> Body) (closer : bool) :
  (exists err,
     snd (Writer lib (world out) cfg file) = Some err
     /\ MailRun_send lib out cfg file as_body closer = (Some (ErrCompose err), [CWriter]))
  \/ (snd (Writer lib (world out) cfg file) = None
      /\ MailRun_send lib out cfg file as_body closer
         = (fst (MailSend (server out) cfg
                   (as_body (fst (Writer lib (world out) cfg file)))),
            CWriter
            :: snd (MailSend (server out) cfg
                      (as_body (fst (Writer lib (world out) cfg file))))
            ++ (if closer then [CSinkClose] else []))%list).
Proof.
  unfold MailRun_send.
  destruct (Writer lib (world out) cfg file) as [f [err|]].
  - left. exists err. split; reflexivity.
  - right. split; reflexivity.
Qed.

(** X21: In every run of [MailRun], the temporary file is removed exactly when
    it was created, and the removal is the last call of the run: on the
    failure of the composition, on the failure of the session, and on
    success.  A run that does not create the file removes nothing and
    closes nothing. *)
Theorem MailRun_temp_file_discipline (lib : GoLib) (out : Outside) (cfg : MailConfig) :
  let calls := snd (MailRun lib out cfg) in
  (In CRemove calls <-> In CCreate calls /\ on_Create out = None)
  /\ (In CRemove calls -> last calls CLen = CRemove)
  /\ (In CSinkClose calls -> In CRemove calls).
Proof.
  unfold MailRun.
  destruct (negb (nonempty (User cfg)) || negb (nonempty (Passwd cfg))
            || negb (nonempty (From cfg)) || negb (nonempty (To cfg)))%bool.
  { cbn. intuition auto. }
  destruct (Len (world out) cfg) as [size [err|]].
  { cbn. intuition (try discriminate). }
  assert (N : forall body c, is_smtp c = false ->
                ~ In c (snd (MailSend (server out) cfg body))).
  { intros body c Q I. apply MailSend_smtp_only in I. congruence. }
  destruct (memMaxSize <=? size)%Z.
  - destruct (on_Create out) as [err|] eqn:C.
    { cbn. intuition (try discriminate). }
    destruct (MailRun_send_calls lib out cfg (sk_new (file_verdict out))
                (fun file => mkBody EmptyString (Some (sk_bytes file))) true)
      as [(err & _ & E)|(_ & E)]; rewrite E; cbn [fst snd].
    + cbn. intuition auto.
    + set (k := MailSend _ _ _). cbv zeta.
      assert (R : In CRemove (CLen :: CCreate :: (CWriter :: snd k ++ [CSinkClose])
                              ++ [CRemove])).
      { right. right. apply in_or_app. right. left. reflexivity. }
      split; [split; [intros _; split; [right; left; reflexivity | reflexivity]
                     |intros _; exact R]|].
      split; [intros _|intros _; exact R].
      apply (last_last (CLen :: CCreate :: CWriter :: snd k ++ [CSinkClose])).
  - destruct (size <? 0)%Z.
    { cbn. intuition (try discriminate). }
    destruct (MailRun_send_calls lib out cfg (mkBuffer EmptyString)
                (fun file => mkBody (buf_bytes file) None) false)
      as [(err & _ & E)|(_ & E)]; rewrite E; cbn [fst snd].
    + cbn. intuition (try discriminate).
    + set (k := MailSend _ _ _). cbv zeta. rewrite app_nil_r.
      assert (Q : forall c, is_smtp c = false -> c <> CLen -> c <> CWriter ->
                    ~ In c (CLen :: CWriter :: snd k)).
      { intros c Qc N1 N2 [I|[I|I]]; [congruence | congruence |].
        exact (N _ c Qc I). }
      pose proof (Q CRemove eq_refl ltac:(discriminate) ltac:(discriminate)) as Q1.
      pose proof (Q CCreate eq_refl ltac:(discriminate) ltac:(discriminate)) as Q2.
      pose proof (Q CSinkClose eq_refl ltac:(discriminate) ltac:(discriminate)) as Q3.
      intuition auto.
Qed.

(** X22: The temporary file is used from 10 MiB on, this size included: with
    the four required fields and a size estimate that succeeds, the run
    creates the file exactly when the estimate is at least 10485760. *)
Theorem MailRun_threshold (lib : GoLib) (out : Outside) (cfg : MailConfig) (size : Z) :
  User cfg <> EmptyString -> Passwd cfg <> EmptyString ->
  From cfg <> EmptyString -> To cfg <> EmptyString ->
  Len (world out) cfg = (size, None) ->
  (In CCreate (snd (MailRun lib out cfg)) <-> (10485760 <= size)%Z).
Proof.
  intros U P F T L. unfold MailRun.
  apply nonempty_true in U, P, F, T. rewrite U, P, F, T, L. cbn [negb orb].
  change memMaxSize with 10485760%Z.
  destruct (Z.leb_spec 10485760 size) as [G|G].
  - split; [intros _; exact G|]. intros _.
    destruct (on_Create out); right; left; reflexivity.
  - split; [|lia]. intros I. exfalso.
    destruct (size <? 0)%Z; [cbn in I; intuition discriminate|].
    cbn [snd] in I. destruct I as [I|I]; [discriminate I|].
    destruct (MailRun_send_calls lib out cfg (mkBuffer EmptyString)
                (fun file => mkBody (buf_bytes file) None) false)
      as [(err & _ & E)|(_ & E)]; rewrite E in I; cbn [fst snd] in I.
    + destruct I as [I|[]]. discriminate I.
    + destruct I as [I|I]; [discriminate I|].
      rewrite app_nil_r in I. apply MailSend_smtp_only in I. discriminate I.
Qed.

Lemma MailRun_threshold_witness :
  Len (mkWorld (fun _ => inr 10485760%Z) Sample.Open "OUTER" "INNER" (fun h => h))
    (Sample.with_body Sample.msg EmptyString "notes.txt" EmptyString)
  = (10485760%Z, None)
  /\ In CCreate
       (snd (MailRun Sample.lib
               (mkOutside
                  (mkWorld (fun _ => inr 10485760%Z) Sample.Open "OUTER" "INNER"
                     (fun h => h))
                  Sample.accepting None (fun _ => None))
               (Sample.with_body Sample.msg EmptyString "notes.txt" EmptyString))).
Proof.
  split; [reflexivity|].
  apply (MailRun_threshold Sample.lib
           (mkOutside
              (mkWorld (fun _ => inr 10485760%Z) Sample.Open "OUTER" "INNER"
                 (fun h => h))
              Sample.accepting None (fun _ => None))
           (Sample.with_body Sample.msg EmptyString "notes.txt" EmptyString)
           10485760%Z); try discriminate; try reflexivity.
Defined.

(** X23: What [MailRun] hands to the server as the message is what [Writer]
    has put into the sink, all of it and nothing else: the bytes of the
    buffer below the threshold, the bytes of the temporary file from it
    on; and the composition has succeeded on that sink. *)
Theorem MailRun_sends_what_was_composed
    (lib : GoLib) (out : Outside) (cfg : MailConfig) (payload : string) :
  In (CCopy payload) (snd (MailRun lib out cfg)) ->
  exists size,
    Len (world out) cfg = (size, None)
    /\ if (memMaxSize <=? size)%Z
       then Writer lib (world out) cfg (sk_new (file_verdict out))
            = (fst (Writer lib (world out) cfg (sk_new (file_verdict out))), None)
            /\ payload
               = sk_bytes (fst (Writer lib (world out) cfg (sk_new (file_verdict out))))
       else Writer lib (world out) cfg (mkBuffer EmptyString)
            = (fst (Writer lib (world out) cfg (mkBuffer EmptyString)), None)
            /\ payload
               = buf_bytes (fst (Writer lib (world out) cfg (mkBuffer EmptyString))).
Proof.
  unfold MailRun.
  destruct (negb (nonempty (User cfg)) || negb (nonempty (Passwd cfg))
            || negb (nonempty (From cfg)) || negb (nonempty (To cfg)))%bool;
    [intros []|].
  destruct (Len (world out) cfg) as [size [err|]].
  { cbn. intuition discriminate. }
  intros I. exists size. split; [reflexivity|].
  destruct (memMaxSize <=? size)%Z.
  - destruct (on_Create out) as [err|]; [cbn in I; intuition discriminate|].
    cbn [snd] in I.
    destruct (MailRun_send_calls lib out cfg (sk_new (file_verdict out))
                (fun file => mkBody EmptyString (Some (sk_bytes file))) true)
      as [(err & _ & E)|(W & E)]; rewrite E in I; cbn [fst snd] in I.
    + cbn in I. intuition discriminate.
    + split; [destruct (Writer _ _ _ _) as [f r]; cbn [fst snd] in *; congruence|].
      destruct I as [I|[I|I]]; try discriminate I.
      apply in_app_or in I. destruct I as [I|[I|[]]]; [|discriminate I].
      destruct I as [I|I]; [discriminate I|].
      apply in_app_or in I. destruct I as [I|[I|[]]]; [|discriminate I].
      apply MailSend_copies_body in I. exact I.
  - destruct (size <? 0)%Z; [cbn in I; intuition discriminate|].
    cbn [snd] in I.
    destruct (MailRun_send_calls lib out cfg (mkBuffer EmptyString)
                (fun file => mkBody (buf_bytes file) None) false)
      as [(err & _ & E)|(W & E)]; rewrite E in I; cbn [fst snd] in I.
    + cbn in I. intuition discriminate.
    + split; [destruct (Writer _ _ _ _) as [f r]; cbn [fst snd] in *; congruence|].
      destruct I as [I|[I|I]]; try discriminate I.
      rewrite app_nil_r in I. apply MailSend_copies_body in I. exact I.
Qed.

Lemma MailRun_sends_what_was_composed_witness :
  In (CCopy (buf_bytes (fst (Writer Sample.lib Sample.world Sample.msg
                               (mkBuffer EmptyString)))))
     (snd (MailRun Sample.lib Sample.outside Sample.msg))
  /\ exists size,
       Len (world Sample.outside) Sample.msg = (size, None)
       /\ if (memMaxSize <=? size)%Z
          then Writer Sample.lib (world Sample.outside) Sample.msg
                 (sk_new (file_verdict Sample.outside))
               = (fst (Writer Sample.lib (world Sample.outside) Sample.msg
                         (sk_new (file_verdict Sample.outside))), None)
               /\ buf_bytes (fst (Writer Sample.lib Sample.world Sample.msg
                                    (mkBuffer EmptyString)))
                  = sk_bytes (fst (Writer Sample.lib (world Sample.outside) Sample.msg
                                     (sk_new (file_verdict Sample.outside))))
          else Writer Sample.lib (world Sample.outside) Sample.msg (mkBuffer EmptyString)
               = (fst (Writer Sample.lib (world Sample.outside) Sample.msg
                         (mkBuffer EmptyString)), None)
               /\ buf_bytes (fst (Writer Sample.lib Sample.world Sample.msg
                                    (mkBuffer EmptyString)))
                  = buf_bytes (fst (Writer Sample.lib (world Sample.outside) Sample.msg
                                      (mkBuffer EmptyString))).
Proof.
  assert (I : In (CCopy (buf_bytes (fst (Writer Sample.lib Sample.world Sample.msg
                                           (mkBuffer EmptyString)))))
                (snd (MailRun Sample.lib Sample.outside Sample.msg))).
  { vm_compute. auto 20. }
  split; [exact I|].
  exact (MailRun_sends_what_was_composed Sample.lib Sample.outside Sample.msg _ I).
Defined.

(** X24: When the composition fails nothing is sent: [MailRun] returns the
    error of [Writer], wrapped, and the run has no call on the network.
    With a temporary file the file is removed, and it is not closed. *)
Theorem MailRun_compose_failure_sends_nothing
    (lib : GoLib) (out : Outside) (cfg : MailConfig) (size : Z) (err : error) :
  User cfg <> EmptyString -> Passwd cfg <> EmptyString ->
  From cfg <> EmptyString -> To cfg <> EmptyString ->
  Len (world out) cfg = (size, None) ->
  ((0 <= size < memMaxSize)%Z ->
   snd (Writer lib (world out) cfg (mkBuffer EmptyString)) = Some err ->
   MailRun lib out cfg = (Returned (Some (ErrCompose err)), [CLen; CWriter]))
  /\ ((memMaxSize <= size)%Z -> on_Create out = None ->
      snd (Writer lib (world out) cfg (sk_new (file_verdict out))) = Some err ->
      MailRun lib out cfg
      = (Returned (Some (ErrCompose err)), [CLen; CCreate; CWriter; CRemove])).
Proof.
  intros U P F T L. unfold MailRun, MailRun_send.
  apply nonempty_true in U, P, F, T. rewrite U, P, F, T, L. cbn [negb orb].
  split.
  - intros [G0 G1] W.
    destruct (Z.leb_spec memMaxSize size) as [G|_]; [lia|].
    destruct (Z.ltb_spec size 0) as [G|_]; [lia|].
    destruct (Writer lib (world out) cfg (mkBuffer EmptyString)) as [f r].
    cbn [snd] in W. subst r. reflexivity.
  - intros G C W. apply Z.leb_le in G. rewrite G, C.
    destruct (Writer lib (world out) cfg (sk_new (file_verdict out))) as [f r].
    cbn [snd] in W. subst r. reflexivity.
Qed.

Lemma MailRun_compose_failure_sends_nothing_witness :
  MailRun Sample.lib
    (mkOutside
       (mkWorld Sample.Lstat (fun _ => inl (Errno 13)) "OUTER" "INNER" (fun h => h))
       Sample.accepting None (fun _ => None))
    (Sample.with_body Sample.msg "hello" EmptyString "a.bin")
  = (Returned (Some (ErrCompose (Errno 13))), [CLen; CWriter]).
Proof.
  refine (proj1 (MailRun_compose_failure_sends_nothing Sample.lib
                   (mkOutside
                      (mkWorld Sample.Lstat (fun _ => inl (Errno 13)) "OUTER" "INNER"
                         (fun h => h))
                      Sample.accepting None (fun _ => None))
                   (Sample.with_body Sample.msg "hello" EmptyString "a.bin")
                   6%Z (Errno 13) _ _ _ _ _) _ _);
    try discriminate; try reflexivity.
  split; [discriminate | reflexivity].
Defined.

(** ** The start of the payload, and the release of the connection *)

(** X10: Every payload that [Writer] puts into a buffer begins with the lines
    of the top header, in the order of the visit of the map, then an
    empty line, then the first delimiter of the outer boundary; this
    holds for a composition that fails later as well. *)
Theorem Writer_payload_begins (lib : GoLib) (world : World) (e : MailConfig) :
  exists rest,
    buf_bytes (fst (Writer lib world e (mkBuffer EmptyString)))
    = concat_lines (map (header_line lib)
                      (map_order world (top_headers e (boundary_outer world))))
      ++ CRLF ++ ("--" ++ boundary_outer world ++ CRLF) ++ rest.
Proof.
  rewrite Writer_unfold. cbv zeta.
  set (H := concat_lines _).
  set (c0 := H ++ CRLF ++ ("--" ++ boundary_outer world ++ CRLF)).
  assert (D : Fprintf_
                (WriteString_
                   (headerToBytes lib world (mkBuffer EmptyString)
                      (top_headers e (boundary_outer world))) CRLF)
                ("--" ++ boundary_outer world ++ CRLF)
              = pre c0 (mkBuffer EmptyString)).
  { unfold headerToBytes. rewrite headerToBytes_fields_Buffer.
    unfold Fprintf_, WriteString_. rewrite !Write_Buffer. cbn [fst buf_bytes].
    rewrite pre_empty. fold H. unfold c0.
    change (EmptyString ++ H) with H. now rewrite append_assoc. }
  rewrite D.
  assert (A : forall b : Buffer,
             exists rest,
               buf_bytes (fst (Writer_attachments lib world
                                 (multipart.NewWriter (boundary_outer world))
                                 (pre c0 b) (attachment_paths e)))
               = c0 ++ rest).
  { intros b. rewrite Writer_attachments_pre. eexists. reflexivity. }
  assert (G : forall x, exists rest,
             c0 ++ x = H ++ CRLF ++ ("--" ++ boundary_outer world ++ CRLF) ++ rest).
  { intros x. exists x. unfold c0. now rewrite !append_assoc. }
  destruct (nonempty (Content e) || nonempty (ContentPath e))%bool.
  - rewrite Writer_body_pre.
    destruct (Writer_body lib world e (mkBuffer EmptyString) []) as [s [err|]];
      cbn [fst snd].
    + apply G.
    + destruct (A s) as (rest & ->). apply G.
  - destruct (A (mkBuffer EmptyString)) as (rest & ->). apply G.
Qed.

Lemma MailSend_session_keeps_connection (srv : Server) (msg : MailConfig)
    (body : Body) (to : list string) :
  ~ In CClose (snd (MailSend_session srv msg body to)).
Proof.
  unfold MailSend_session. intros I.
  apply In_andThen in I. destruct I as [I|I]; [discriminate I|].
  assert (K : ~ In CClose
                (snd (andThen CAuth (on_Auth srv)
                        (andThen (CMail (From msg)) (on_Mail srv)
                           (MailSend_rcpts srv 0 to (MailSend_data srv body)))))).
  { intros K. apply In_andThen in K. destruct K as [K|K]; [discriminate K|].
    apply In_andThen in K. destruct K as [K|K]; [discriminate K|].
    apply In_MailSend_rcpts in K. destruct K as [(addr & K & _)|K]; [discriminate K|].
    apply In_MailSend_data in K. unfold data_calls in K.
    destruct (rewound body); cbn in K; intuition discriminate. }
  destruct (offers_STARTTLS srv); [|exact (K I)].
  apply In_andThen in I. destruct I as [I|I]; [discriminate I | exact (K I)].
Qed.

(** X20: [MailSend] releases the connection exactly in the runs that have
    one, those with a sender and a dial that succeeds, and then once, as
    the last call: a run that fails before or at the dial releases
    nothing. *)
Theorem MailSend_releases_iff_dialled (srv : Server) (msg : MailConfig) (body : Body) :
  (In CClose (snd (MailSend srv msg body))
   <-> From msg <> EmptyString /\ on_Dial srv = None)
  /\ (In CClose (snd (MailSend srv msg body)) ->
      exists calls,
        snd (MailSend srv msg body) = (calls ++ [CClose])%list /\ ~ In CClose calls).
Proof.
  unfold MailSend.
  pose proof (Split_length_pos (To msg) comma) as L.
  destruct (Nat.eqb_spec (List.length (Split (To msg) comma)) 0) as [Z|_]; [lia|].
  rewrite orb_false_r.
  destruct (nonempty (From msg)) eqn:F; cbn [negb].
  - apply nonempty_true in F.
    destruct (on_Dial srv) as [err|]; cbn [fst snd].
    + split; [split|]; cbn; intuition discriminate.
    + assert (R : In CClose
                    (CDial (Host msg)
                     :: snd (MailSend_session srv msg body (Split (To msg) comma))
                     ++ [CClose])).
      { right. apply in_or_app. right. left. reflexivity. }
      split; [split; [intros _; split; [exact F | reflexivity] | intros _; exact R]|].
      intros _.
      exists (CDial (Host msg)
              :: snd (MailSend_session srv msg body (Split (To msg) comma))).
      split; [reflexivity|]. intros [I|I]; [discriminate I|].
      exact (MailSend_session_keeps_connection srv msg body _ I).
  - apply nonempty_false in F. cbn. intuition congruence.
Qed.
